(** * The [workspaces focus] command of the workspace-tools plugin

    A shallow embedding of [WorkspacesFocus.execute]
    (packages/plugin-workspace-tools/sources/commands/focus.ts) and the
    properties of its three phases: the closure over hard dependencies, the
    eviction of the workspaces that were not selected, and the install that
    must not persist the pruned project.

    Workspaces are JavaScript objects that the command shares between the
    project's array, its two maps and the set of required workspaces, and
    mutates in place.  They are modelled as references into a store of
    objects; the command is a state-and-exception computation over that
    store, the project object and the log of calls to the external install
    and persistence routines. *)

From stdpp Require Import gmap strings list fin_maps.

Local Open Scope Z_scope.
Local Open Scope nat_scope.

(** ** Data model *)

Abbreviation IdentHash := string (only parsing).
Abbreviation PortablePath := string (only parsing).

(** A reference to a [Workspace] object; [===] on workspaces is equality of
    references. *)
Abbreviation Workspace := positive (only parsing).

Record Ident := { identHash : IdentHash; ident_name : string }.

(** [Descriptor extends Ident] with a range. *)
Record Descriptor := { descriptor_identHash : IdentHash; range : string }.

(** [Locator extends Ident] with a reference. *)
Record Locator := { locator_identHash : IdentHash; reference : string }.

(** A dependency scope is a [Map<IdentHash, Descriptor>]; JavaScript maps
    iterate in insertion order, hence the association list. *)
Abbreviation Scope := (list (IdentHash * Descriptor)) (only parsing).

Record Manifest := {
  dependencies : Scope;
  devDependencies : Scope;
  peerDependencies : Scope
}.

Inductive DependencyType := Dependencies | DevDependencies | PeerDependencies.

Record WorkspaceObj := {
  cwd : PortablePath;
  locator : Locator;
  manifest : Manifest
}.

Record Project := {
  project_cwd : PortablePath;
  workspaces : list Workspace;
  workspacesByCwd : gmap PortablePath Workspace;
  workspacesByIdent : gmap IdentHash Workspace;
  topLevelWorkspace : Workspace
}.

(** Calls that leave the command towards the install machinery. *)
Inductive Event :=
| EvInstall (persistProject : bool)
| EvPersistInstallStateFile.

Inductive Error :=
| WorkspaceRequiredError (projectCwd contextCwd : PortablePath)
| UnknownWorkspace (ident : Ident)
| InstallFailure (message : string).

Record StreamReport := { exitCode : Z }.

Record State := {
  objects : gmap Workspace WorkspaceObj;
  project : Project;
  calls : list Event
}.

(** The fields of the command object and of its context. *)
Record WorkspacesFocus := {
  cmd_workspaces : list string;
  json : bool;
  production : bool;
  all : bool;
  context_cwd : PortablePath
}.

(** ** The store of workspace objects *)

Definition empty_manifest : Manifest :=
  {| dependencies := []; devDependencies := []; peerDependencies := [] |}.

(** A JavaScript reference always points to an object.  The store is read
    as a total map with finite support: a reference without an entry reads
    as a workspace with an empty manifest. *)
Definition blank_workspace : WorkspaceObj :=
  {| cwd := ""; locator := {| locator_identHash := ""; reference := "" |};
     manifest := empty_manifest |}.

Definition deref (s : State) (w : Workspace) : WorkspaceObj :=
  default blank_workspace (objects s !! w).

(** [Manifest.getForScope]: the map of the given dependency type. *)
Definition getForScope (m : Manifest) (ty : DependencyType) : Scope :=
  match ty with
  | Dependencies => dependencies m
  | DevDependencies => devDependencies m
  | PeerDependencies => peerDependencies m
  end.

(** Modelled from the spec: the constant [Manifest.hardDependencies] of the
    core package is not part of the sources; the hard dependency scopes are
    [dependencies] and [devDependencies], not [peerDependencies]. *)
Definition hardDependencies : list DependencyType :=
  [Dependencies; DevDependencies].

(** [scope.clear()] on one of the three maps of a manifest. *)
Definition clear_scope (ty : DependencyType) (m : Manifest) : Manifest :=
  match ty with
  | Dependencies =>
      {| dependencies := []; devDependencies := devDependencies m;
         peerDependencies := peerDependencies m |}
  | DevDependencies =>
      {| dependencies := dependencies m; devDependencies := [];
         peerDependencies := peerDependencies m |}
  | PeerDependencies =>
      {| dependencies := dependencies m; devDependencies := devDependencies m;
         peerDependencies := [] |}
  end.

Definition clear_in_obj (ty : DependencyType) (o : WorkspaceObj) : WorkspaceObj :=
  {| cwd := cwd o; locator := locator o;
     manifest := clear_scope ty (manifest o) |}.

(** ** State updates *)

Definition set_objects (f : gmap Workspace WorkspaceObj → gmap Workspace WorkspaceObj)
    (s : State) : State :=
  {| objects := f (objects s); project := project s; calls := calls s |}.

Definition set_project (f : Project → Project) (s : State) : State :=
  {| objects := objects s; project := f (project s); calls := calls s |}.

Definition log_call (e : Event) (s : State) : State :=
  {| objects := objects s; project := project s; calls := calls s ++ [e] |}.

Definition set_workspaces (f : list Workspace → list Workspace) (p : Project) : Project :=
  {| project_cwd := project_cwd p; workspaces := f (workspaces p);
     workspacesByCwd := workspacesByCwd p;
     workspacesByIdent := workspacesByIdent p;
     topLevelWorkspace := topLevelWorkspace p |}.

Definition set_workspacesByCwd
    (f : gmap PortablePath Workspace → gmap PortablePath Workspace) (p : Project) : Project :=
  {| project_cwd := project_cwd p; workspaces := workspaces p;
     workspacesByCwd := f (workspacesByCwd p);
     workspacesByIdent := workspacesByIdent p;
     topLevelWorkspace := topLevelWorkspace p |}.

Definition set_workspacesByIdent
    (f : gmap IdentHash Workspace → gmap IdentHash Workspace) (p : Project) : Project :=
  {| project_cwd := project_cwd p; workspaces := workspaces p;
     workspacesByCwd := workspacesByCwd p;
     workspacesByIdent := f (workspacesByIdent p);
     topLevelWorkspace := topLevelWorkspace p |}.

(** ** Commands: state passing with exceptions

    A thrown exception keeps the state reached so far: JavaScript does not
    roll anything back.  [OutOfFuel] is the only outcome that is not one of
    the program's; it marks a loop cut short by the iteration budget of the
    model. *)

Inductive Outcome (A : Type) :=
| Return (a : A)
| Throw (e : Error)
| OutOfFuel.
Arguments Return {A} a.
Arguments Throw {A} e.
Arguments OutOfFuel {A}.

Definition Cmd (A : Type) : Type := State → Outcome A * State.

#[global] Instance cmd_ret : MRet Cmd := λ A a s, (Return a, s).

#[global] Instance cmd_bind : MBind Cmd := λ A B k m s,
  match m s with
  | (Return a, s') => k a s'
  | (Throw e, s') => (Throw e, s')
  | (OutOfFuel, s') => (OutOfFuel, s')
  end.

Definition throw {A} (e : Error) : Cmd A := λ s, (Throw e, s).
Definition out_of_fuel {A} : Cmd A := λ s, (OutOfFuel, s).
Definition gets {A} (f : State → A) : Cmd A := λ s, (Return (f s), s).
Definition modify (f : State → State) : Cmd unit := λ s, (Return tt, f s).

(** [for (const a of l) b = f(b, a)], with the loop-carried local [b]. *)
Fixpoint for_fold {A B} (f : B → A → Cmd B) (b : B) (l : list A) : Cmd B :=
  match l with
  | [] => mret b
  | a :: l => b' ← f b a; for_fold f b' l
  end.

(** [for (const a of l) f(a)]. *)
Fixpoint for_each {A} (f : A → Cmd unit) (l : list A) : Cmd unit :=
  match l with
  | [] => mret tt
  | a :: l => f a;; for_each f l
  end.

(** [l.map(f)], where [f] may throw. *)
Fixpoint array_map {A B} (f : A → Cmd B) (l : list A) : Cmd (list B) :=
  match l with
  | [] => mret []
  | a :: l => b ← f a; bs ← array_map f l; mret (b :: bs)
  end.

(** ** [Set<Workspace>]

    A JavaScript set keeps its elements in insertion order; [add] appends
    an element that is not there yet and does nothing otherwise.  The set
    of required workspaces is a local of [execute] that nothing else
    refers to, so it is passed along as a value. *)

Definition Set_has (s : list Workspace) (w : Workspace) : bool :=
  bool_decide (w ∈ s).

Definition Set_add (w : Workspace) (s : list Workspace) : list Workspace :=
  if Set_has s w then s else s ++ [w].

Definition Set_new (l : list Workspace) : list Workspace :=
  foldl (λ s w, Set_add w s) [] l.

(** ** Arrays *)

(** [l.indexOf(w)]: the first index of [w], or [-1]. *)
Definition indexOf (l : list Workspace) (w : Workspace) : Z :=
  match list_find (λ x, x = w) l with
  | Some (i, _) => Z.of_nat i
  | None => (-1)%Z
  end.

(** [l.splice(start, 1)]: a negative [start] counts from the end of the
    array, and nothing is removed when the start is past the end. *)
Definition splice1 (start : Z) (l : list Workspace) : list Workspace :=
  let len := Z.of_nat (length l) in
  let actualStart :=
    if (start <? 0)%Z then Z.max (len + start) 0 else Z.min start len in
  delete (Z.to_nat actualStart) l.

Section Focus.

(** The parts of the core package that the command calls and that are not
    part of the sources. *)

(** [structUtils.parseIdent]. *)
Variable parseIdent : string → Ident.

(** Whether a workspace satisfies the range of a descriptor that names
    it. *)
Variable accepts : Workspace → string → bool.

(** The external install routine: given the [persistProject] option, the
    report and the in-memory project, it fails with a message or succeeds,
    and leaves the store, the project and the report in some state. *)
Variable install_routine :
  bool → StreamReport → gmap Workspace WorkspaceObj → Project →
  option string * StreamReport * gmap Workspace WorkspaceObj * Project.

(** ** The project's accessors *)

(** The lookup in the by-identity index, [null] when the identity is not a
    workspace's. *)
Definition tryWorkspaceByIdent (hash : IdentHash) : Cmd (option Workspace) :=
  gets (λ s, workspacesByIdent (project s) !! hash).

(** Modelled from the spec: [Project.getWorkspaceByIdent] is not part of the
    sources; a name that does not resolve to a workspace of the project
    fails with [UnknownWorkspace]. *)
Definition getWorkspaceByIdent (ident : Ident) : Cmd Workspace :=
  found ← tryWorkspaceByIdent (identHash ident);
  match found with
  | None => throw (UnknownWorkspace ident)
  | Some w => mret w
  end.

(** Modelled from the spec: [Project.tryWorkspaceByDescriptor] is not part
    of the sources; the descriptor's package identity is resolved against
    the project's by-identity index, and the result is [null] when the
    dependency is not satisfied by a workspace of the project.  Whether
    the workspace found satisfies the descriptor is the project model's
    to say: the parameter [accepts]. *)
Definition tryWorkspaceByDescriptor (descriptor : Descriptor) : Cmd (option Workspace) :=
  found ← tryWorkspaceByIdent (descriptor_identHash descriptor);
  match found with
  | None => mret None
  | Some w => if accepts w (range descriptor) then mret (Some w) else mret None
  end.

(** ** Seed selection (focus.ts, lines 48-60) *)

Definition select_required (this : WorkspacesFocus) (workspace : option Workspace)
    : Cmd (list Workspace) :=
  if all this then
    ws ← gets (λ s, workspaces (project s));
    mret (Set_new ws)
  else if (length (cmd_workspaces this) =? 0)%nat then
    match workspace with
    | None =>
        pcwd ← gets (λ s, project_cwd (project s));
        throw (WorkspaceRequiredError pcwd (context_cwd this))
    | Some w => mret (Set_new [w])
    end
  else
    ws ← array_map (λ name, getWorkspaceByIdent (parseIdent name)) (cmd_workspaces this);
    mret (Set_new ws).

(** ** The closure loop (focus.ts, lines 68-79) *)

(** The body of the innermost loop. *)
Definition scan_descriptor (requiredWorkspaces : list Workspace) (descriptor : Descriptor)
    : Cmd (list Workspace) :=
  matchingWorkspace ← tryWorkspaceByDescriptor descriptor;
  match matchingWorkspace with
  | None => mret requiredWorkspaces
  | Some w => mret (Set_add w requiredWorkspaces)
  end.

(** [for (const descriptor of workspace.manifest.getForScope(dependencyType).values())] *)
Definition scan_scope (workspace : Workspace) (requiredWorkspaces : list Workspace)
    (dependencyType : DependencyType) : Cmd (list Workspace) :=
  descriptors ← gets (λ s, (getForScope (manifest (deref s workspace)) dependencyType).*2);
  for_fold scan_descriptor requiredWorkspaces descriptors.

(** [for (const dependencyType of Manifest.hardDependencies)] *)
Definition scan_workspace (workspace : Workspace) (requiredWorkspaces : list Workspace)
    : Cmd (list Workspace) :=
  for_fold (scan_scope workspace) requiredWorkspaces hardDependencies.

(** [for (const workspace of requiredWorkspaces)]: the set's iterator is a
    position in the insertion order; it ends when the position is past
    the last element, also counting the elements added meanwhile.  One
    unit of fuel is one call to the iterator. *)
Fixpoint closure_loop (fuel : nat) (i : nat) (requiredWorkspaces : list Workspace)
    : Cmd (list Workspace) :=
  match fuel with
  | O => out_of_fuel
  | S fuel =>
      match requiredWorkspaces !! i with
      | None => mret requiredWorkspaces
      | Some workspace =>
          requiredWorkspaces ← scan_workspace workspace requiredWorkspaces;
          closure_loop fuel (S i) requiredWorkspaces
      end
  end.

(** ** Eviction (focus.ts, lines 84-105) *)

(** [workspace.manifest.<scope>.clear()] *)
Definition clear (dependencyType : DependencyType) (workspace : Workspace) : Cmd unit :=
  modify (set_objects (alter (clear_in_obj dependencyType) workspace)).

(** The body of the loop over [project.workspaces]; [evictions] is the
    array that the loop pushes to. *)
Definition mutate_step (this : WorkspacesFocus) (requiredWorkspaces : list Workspace)
    (evictions : list Workspace) (workspace : Workspace) : Cmd (list Workspace) :=
  if Set_has requiredWorkspaces workspace then
    if production this then
      clear DevDependencies workspace;;
      mret evictions
    else mret evictions
  else
    clear Dependencies workspace;;
    clear DevDependencies workspace;;
    clear PeerDependencies workspace;;
    top ← gets (λ s, topLevelWorkspace (project s));
    if bool_decide (top ≠ workspace) then mret (evictions ++ [workspace])
    else mret evictions.

(** The loop does not change [project.workspaces], so the array it walks is
    the one read at its start. *)
Definition mutate_pass (this : WorkspacesFocus) (requiredWorkspaces : list Workspace)
    : Cmd (list Workspace) :=
  ws ← gets (λ s, workspaces (project s));
  for_fold (mutate_step this requiredWorkspaces) [] ws.

(** The body of the loop over [evictions]. *)
Definition remove_step (evictedWorkspace : Workspace) : Cmd unit :=
  path ← gets (λ s, cwd (deref s evictedWorkspace));
  modify (set_project (set_workspacesByCwd (delete path)));;
  hash ← gets (λ s, locator_identHash (locator (deref s evictedWorkspace)));
  modify (set_project (set_workspacesByIdent (delete hash)));;
  index ← gets (λ s, indexOf (workspaces (project s)) evictedWorkspace);
  modify (set_project (set_workspaces (splice1 index))).

Definition removal_pass (evictions : list Workspace) : Cmd unit :=
  for_each remove_step evictions.

(** The eviction procedure: the manifest pass, then the removal pass. *)
Definition evict (this : WorkspacesFocus) (requiredWorkspaces : list Workspace) : Cmd unit :=
  evictions ← mutate_pass this requiredWorkspaces;
  removal_pass evictions.

(** ** The install (focus.ts, lines 111-122) *)

(** [project.install({cache, report, persistProject})]: the call is logged
    and its effect is the external routine's. *)
Definition project_install (report : StreamReport) (persistProject : bool)
    : Cmd StreamReport := λ s,
  let '(failure, report', objects', project') :=
    install_routine persistProject report (objects s) (project s) in
  let s' := {| objects := objects'; project := project';
               calls := calls s ++ [EvInstall persistProject] |} in
  match failure with
  | Some message => (Throw (InstallFailure message), s')
  | None => (Return report', s')
  end.

(** [project.persistInstallStateFile()] *)
Definition persistInstallStateFile : Cmd unit :=
  modify (log_call EvPersistInstallStateFile).

(** The callback handed to [StreamReport.start]. *)
Definition install_callback (report : StreamReport) : Cmd StreamReport :=
  report ← project_install report false;
  persistInstallStateFile;;
  mret report.

(** Modelled from the spec: [StreamReport.start] is not part of the sources;
    the install is a single awaited unit of work, an error of which
    propagates unmodified to the caller; the report it hands out starts
    with exit code zero. *)
Definition StreamReport_start (callback : StreamReport → Cmd StreamReport)
    : Cmd StreamReport :=
  callback {| exitCode := 0 |}.

(** ** [WorkspacesFocus.execute] *)

Definition execute (fuel : nat) (this : WorkspacesFocus) (workspace : option Workspace)
    : Cmd Z :=
  requiredWorkspaces ← select_required this workspace;
  requiredWorkspaces ← closure_loop fuel 0 requiredWorkspaces;
  evict this requiredWorkspaces;;
  report ← StreamReport_start install_callback;
  mret (exitCode report).

End Focus.

(** ** The command's schema (focus.ts, lines 33-40) *)

(** [yup.array().max(n, message)]: the error of an array longer than [n]. *)
Definition array_max (n : nat) (message : string) (l : list string) : list string :=
  if (length l <=? n)%nat then [] else [message].

(** [static schema]: the validation errors of the command's options.
    [all: yup.bool()] accepts every boolean; [workspaces] is checked
    against [max(0)] when [all] is true and against nothing otherwise. *)
Definition schema (this : WorkspacesFocus) : list string :=
  if all this then
    array_max 0 "Cannot specify workspaces when using the --all flag" (cmd_workspaces this)
  else [].

(** What [execute] does once the required set is known and the project is
    pruned: the install under [StreamReport.start], then the exit code. *)
Definition run_install
    (install_routine :
       bool → StreamReport → gmap Workspace WorkspaceObj → Project →
       option string * StreamReport * gmap Workspace WorkspaceObj * Project)
    : Cmd Z :=
  report ← StreamReport_start (install_callback install_routine);
  mret (exitCode report).

(** ** Specification-side notions *)

Section Graph.

Variable accepts : Workspace → string → bool.

(** What [tryWorkspaceByDescriptor] answers in a given state. *)
Definition resolve (s : State) (d : Descriptor) : option Workspace :=
  match workspacesByIdent (project s) !! descriptor_identHash d with
  | Some w => if accepts w (range d) then Some w else None
  | None => None
  end.

(** The workspaces that the descriptors of one scope resolve to. *)
Definition scope_targets (s : State) (w : Workspace) (ty : DependencyType)
    : list Workspace :=
  omap (resolve s) (getForScope (manifest (deref s w)) ty).*2.

(** A hard-dependency edge: a descriptor of a hard scope of [w] resolves
    to the in-project workspace [w']. *)
Definition hard_edge (s : State) (w w' : Workspace) : Prop :=
  ∃ ty, ty ∈ hardDependencies ∧ w' ∈ scope_targets s w ty.

(** An edge through the [peerDependencies] scope. *)
Definition peer_edge (s : State) (w w' : Workspace) : Prop :=
  w' ∈ scope_targets s w PeerDependencies.

Definition hard_reachable (s : State) (seed : list Workspace) (w : Workspace) : Prop :=
  ∃ v, v ∈ seed ∧ rtc (hard_edge s) v w.

(** Closed under hard-dependency edges. *)
Definition hard_closed (s : State) (req : list Workspace) : Prop :=
  ∀ w w', w ∈ req → hard_edge s w w' → w' ∈ req.

(** The members before position [i] have been scanned. *)
Definition scanned (s : State) (i : nat) (req : list Workspace) : Prop :=
  ∀ j w w', j < i → req !! j = Some w → hard_edge s w w' → w' ∈ req.

End Graph.

(** [requiredWorkspaces.add] over a sequence of workspaces. *)
Definition add_all (req : list Workspace) (l : list Workspace) : list Workspace :=
  foldl (λ r x, Set_add x r) req l.

(** [req] is [seed] followed by appended elements: elements appended after a fixed seed stay pairwise distinct and come
    from the sequence that was added. *)
Definition grown (seed U req : list Workspace) : Prop :=
  ∃ extra, req = seed ++ extra ∧ NoDup extra ∧ ∀ x, x ∈ extra → x ∈ U.

(** Whether the manifest pass pushes [w] to the evictions: it is not
    required and it is not the top-level workspace. *)
Definition evicted (req : list Workspace) (top w : Workspace) : Prop :=
  (w ∉ req) ∧ top ≠ w.

#[global] Instance evicted_dec req top w : Decision (evicted req top w).
Proof. unfold evicted. apply _. Defined.

(** What the manifest pass does to the object of [w]. *)
Definition prune (this : WorkspacesFocus) (req : list Workspace) (w : Workspace)
    (o : WorkspaceObj) : WorkspaceObj :=
  if Set_has req w then
    if production this then clear_in_obj DevDependencies o else o
  else
    clear_in_obj PeerDependencies
      (clear_in_obj DevDependencies (clear_in_obj Dependencies o)).

(** What the removal pass does to the project for one evicted workspace
    whose object is [o]. *)
Definition remove_one (o : WorkspaceObj) (e : Workspace) (p : Project) : Project :=
  set_workspaces (λ l, splice1 (indexOf l e) l)
    (set_workspacesByIdent (delete (locator_identHash (locator o)))
       (set_workspacesByCwd (delete (cwd o)) p)).

(** The state after the manifest pass and after the whole eviction. *)
Definition pruned_state (this : WorkspacesFocus) (req : list Workspace) (s : State) : State :=
  set_objects (λ o, foldl (λ o w, alter (prune this req w) w o) o
                          (workspaces (project s))) s.

Definition evicted_state (this : WorkspacesFocus) (req : list Workspace) (s : State) : State :=
  set_project
    (λ p, foldl (λ p e, remove_one (deref (pruned_state this req s) e) e p) p
            (filter (evicted req (topLevelWorkspace (project s)))
                    (workspaces (project s))))
    (pruned_state this req s).

(** A command that leaves the state as it found it. *)
Definition read_only {A} (m : Cmd A) : Prop := ∀ s, (m s).2 = s.

(** The scopes of a workspace in a state. *)
Definition scopes_of (s : State) (w : Workspace) : Manifest := manifest (deref s w).

(** Two states whose projects index the same workspaces and whose
    manifests agree on the hard scopes; the [peerDependencies] scopes are
    free to differ. *)
Definition hard_scopes_agree (s1 s2 : State) : Prop :=
  workspacesByIdent (project s1) = workspacesByIdent (project s2) ∧
  ∀ w, dependencies (scopes_of s1 w) = dependencies (scopes_of s2 w) ∧
       devDependencies (scopes_of s1 w) = devDependencies (scopes_of s2 w).

(** A command-line name resolves to a workspace of the project, or to
    none. *)
Definition named (parseIdent : string → Ident) (s : State) (name : string)
    (w : Workspace) : Prop :=
  workspacesByIdent (project s) !! identHash (parseIdent name) = Some w.

Definition unknown (parseIdent : string → Ident) (s : State) (name : string) : Prop :=
  workspacesByIdent (project s) !! identHash (parseIdent name) = None.

(** The invariant of the project object: the array and the two maps hold
    the same workspaces, each under its own path and its own identity, and
    the top-level workspace is one of them. *)
Definition project_consistent (s : State) : Prop :=
  Forall (λ w, workspacesByCwd (project s) !! cwd (deref s w) = Some w ∧
               workspacesByIdent (project s) !! locator_identHash (locator (deref s w)) = Some w)
         (workspaces (project s)) ∧
  map_Forall (λ k w, cwd (deref s w) = k ∧ w ∈ workspaces (project s))
             (workspacesByCwd (project s)) ∧
  map_Forall (λ k w, locator_identHash (locator (deref s w)) = k ∧ w ∈ workspaces (project s))
             (workspacesByIdent (project s)) ∧
  topLevelWorkspace (project s) ∈ workspaces (project s).

#[global] Instance project_consistent_dec s : Decision (project_consistent s).
Proof. unfold project_consistent. apply _. Defined.

(** Membership in the array, in the by-path map and in the by-identity
    map. *)
Definition in_list (s : State) (w : Workspace) : Prop := w ∈ workspaces (project s).
Definition in_byCwd (s : State) (w : Workspace) : Prop :=
  ∃ k, workspacesByCwd (project s) !! k = Some w.
Definition in_byIdent (s : State) (w : Workspace) : Prop :=
  ∃ k, workspacesByIdent (project s) !! k = Some w.

(** ** A small project

    The workspaces [root], [A], [B] and [C]: [A] depends on [B] and on the
    external package [lodash], and has a peer dependency on [C]; [B] has a
    development dependency on an external package; [C] depends on [A]. *)

Definition workspace_obj (path name : string) (deps devs peers : Scope) : WorkspaceObj :=
  {| cwd := path;
     locator := {| locator_identHash := name; reference := "workspace:" +:+ path |};
     manifest := {| dependencies := deps; devDependencies := devs;
                    peerDependencies := peers |} |}.

Definition dependency (name rng : string) : IdentHash * Descriptor :=
  (name, {| descriptor_identHash := name; range := rng |}).

Definition demo_root : Workspace := 1%positive.
Definition demo_A : Workspace := 2%positive.
Definition demo_B : Workspace := 3%positive.
Definition demo_C : Workspace := 4%positive.

Definition demo_project : Project :=
  {| project_cwd := "/";
     workspaces := [demo_root; demo_A; demo_B; demo_C];
     workspacesByCwd :=
       list_to_map [("/", demo_root); ("/a", demo_A); ("/b", demo_B); ("/c", demo_C)];
     workspacesByIdent :=
       list_to_map [("root", demo_root); ("A", demo_A); ("B", demo_B); ("C", demo_C)];
     topLevelWorkspace := demo_root |}.

Definition demo_state : State :=
  {| objects :=
       list_to_map
         [(demo_root, workspace_obj "/" "root" [] [] []);
          (demo_A, workspace_obj "/a" "A"
                     [dependency "B" "workspace:*"; dependency "lodash" "^4.17.0"]
                     [] [dependency "C" "*"]);
          (demo_B, workspace_obj "/b" "B" [] [dependency "typescript" "^4.0.0"] []);
          (demo_C, workspace_obj "/c" "C" [dependency "A" "workspace:*"] [] [])];
     project := demo_project;
     calls := [] |}.

Definition demo_parseIdent (name : string) : Ident :=
  {| identHash := name; ident_name := name |}.

Definition demo_accepts (w : Workspace) (rng : string) : bool := true.

Definition demo_install (persistProject : bool) (report : StreamReport)
    (o : gmap Workspace WorkspaceObj) (p : Project)
    : option string * StreamReport * gmap Workspace WorkspaceObj * Project :=
  (None, report, o, p).

Definition demo_focus (names : list string) (prod : bool) : WorkspacesFocus :=
  {| cmd_workspaces := names; json := false; production := prod; all := false;
     context_cwd := "/a" |}.

(** ** Running commands *)

Lemma bind_run {A B} (m : Cmd A) (k : A → Cmd B) s :
  (m ≫= k) s =
  match m s with
  | (Return a, s') => k a s'
  | (Throw e, s') => (Throw e, s')
  | (OutOfFuel, s') => (OutOfFuel, s')
  end.
Proof. reflexivity. Qed.

Lemma bind_return {A B} (m : Cmd A) (k : A → Cmd B) s a s' :
  m s = (Return a, s') → (m ≫= k) s = k a s'.
Proof. intros H. rewrite bind_run, H. reflexivity. Qed.

Lemma read_only_bind {A B} (m : Cmd A) (k : A → Cmd B) :
  read_only m → (∀ a, read_only (k a)) → read_only (m ≫= k).
Proof.
  intros Hm Hk s. rewrite bind_run. specialize (Hm s).
  destruct (m s) as [[a|e|] s']; simpl in *; subst; auto.
  apply Hk.
Qed.

Lemma read_only_ret {A} (a : A) : read_only (mret a).
Proof. intros s. reflexivity. Qed.

Lemma read_only_gets {A} (f : State → A) : read_only (gets f).
Proof. intros s. reflexivity. Qed.

Lemma read_only_throw {A} e : read_only (@throw A e).
Proof. intros s. reflexivity. Qed.

Lemma for_fold_read_only {A B} (f : B → A → Cmd B) l :
  (∀ b a, read_only (f b a)) → ∀ b, read_only (for_fold f b l).
Proof.
  intros Hf. induction l as [|a l IH]; intros b; simpl.
  - apply read_only_ret.
  - apply read_only_bind; auto.
Qed.

Lemma array_map_read_only {A B} (f : A → Cmd B) l :
  (∀ a, read_only (f a)) → read_only (array_map f l).
Proof.
  intros Hf. induction l as [|a l IH]; simpl.
  - apply read_only_ret.
  - apply read_only_bind; auto. intros b.
    apply read_only_bind; auto. intros bs. apply read_only_ret.
Qed.

Create HintDb ro.
#[local] Hint Resolve read_only_ret read_only_gets read_only_throw : ro.

(** ** The set of required workspaces *)

Lemma Set_add_elem w x s : x ∈ Set_add w s ↔ x ∈ s ∨ x = w.
Proof.
  unfold Set_add, Set_has. case_bool_decide.
  - split; [auto | intros [?| ->]; auto].
  - rewrite elem_of_app, list_elem_of_singleton. tauto.
Qed.

Lemma Set_add_prefix w s : s `prefix_of` Set_add w s.
Proof.
  unfold Set_add. destruct (Set_has s w); [done | by apply prefix_app_r].
Qed.

Lemma Set_add_NoDup w s : NoDup s → NoDup (Set_add w s).
Proof.
  intros Hs. unfold Set_add, Set_has. case_bool_decide; [done |].
  apply NoDup_app. split_and!; [done | | apply NoDup_singleton].
  intros x Hx ->%list_elem_of_singleton. done.
Qed.

Lemma add_all_elem l : ∀ req x, x ∈ add_all req l ↔ x ∈ req ∨ x ∈ l.
Proof.
  unfold add_all. induction l as [|a l IH]; intros req x; simpl.
  - rewrite elem_of_nil. tauto.
  - rewrite IH, Set_add_elem, elem_of_cons. tauto.
Qed.

Lemma add_all_prefix l : ∀ req, req `prefix_of` add_all req l.
Proof.
  unfold add_all. induction l as [|a l IH]; intros req; simpl; [done |].
  etrans; [apply (Set_add_prefix a) | apply IH].
Qed.

Lemma add_all_NoDup l : ∀ req, NoDup req → NoDup (add_all req l).
Proof.
  unfold add_all. induction l as [|a l IH]; intros req H; simpl; [done |].
  apply IH, Set_add_NoDup, H.
Qed.

Lemma Set_new_elem l x : x ∈ Set_new l ↔ x ∈ l.
Proof.
  unfold Set_new. change (x ∈ add_all [] l ↔ x ∈ l).
  rewrite add_all_elem, elem_of_nil. tauto.
Qed.

Lemma Set_new_NoDup l : NoDup (Set_new l).
Proof. apply (add_all_NoDup l []), NoDup_nil_2. Qed.

Lemma Set_add_grown seed U req w :
  w ∈ U → grown seed U req → grown seed U (Set_add w req).
Proof.
  intros Hw (extra & -> & Hnd & Hsub). unfold Set_add, Set_has.
  case_bool_decide as Hin; [by exists extra |].
  exists (extra ++ [w]). split_and!.
  - by rewrite (assoc_L (++)).
  - apply NoDup_app. split_and!; [done | | apply NoDup_singleton].
    intros x Hx ->%list_elem_of_singleton. apply Hin, elem_of_app. auto.
  - intros x [?| ->%list_elem_of_singleton]%elem_of_app; auto.
Qed.

Lemma add_all_grown seed U l :
  (∀ x, x ∈ l → x ∈ U) → ∀ req, grown seed U req → grown seed U (add_all req l).
Proof.
  unfold add_all. induction l as [|a l IH]; intros Hl req H; simpl; [done |].
  apply IH; [intros x Hx; apply Hl; by right |].
  apply Set_add_grown; [apply Hl; by left | done].
Qed.

Lemma grown_length seed U req :
  grown seed U req → length req ≤ length seed + length U.
Proof.
  intros (extra & -> & Hnd & Hsub). rewrite length_app.
  assert (extra ⊆+ U) as Hle by (by apply NoDup_submseteq).
  apply submseteq_length in Hle. lia.
Qed.

(** ** The closure loop *)

Section Closure.

Variable accepts : Workspace → string → bool.

Lemma tryWorkspaceByDescriptor_run d s :
  tryWorkspaceByDescriptor accepts d s = (Return (resolve accepts s d), s).
Proof.
  unfold tryWorkspaceByDescriptor, resolve, tryWorkspaceByIdent.
  rewrite bind_run. simpl.
  destruct (workspacesByIdent (project s) !! descriptor_identHash d) as [w|]; [|done].
  by destruct (accepts w (range d)).
Qed.

Lemma scan_descriptor_run req d s :
  scan_descriptor accepts req d s =
  (Return (add_all req (option_list (resolve accepts s d))), s).
Proof.
  unfold scan_descriptor.
  rewrite (bind_return _ _ _ _ _ (tryWorkspaceByDescriptor_run d s)).
  by destruct (resolve accepts s d).
Qed.

Lemma scan_descriptors_run ds : ∀ req s,
  for_fold (scan_descriptor accepts) req ds s =
  (Return (add_all req (omap (resolve accepts s) ds)), s).
Proof.
  induction ds as [|d ds IH]; intros req s; simpl; [done |].
  rewrite (bind_return _ _ _ _ _ (scan_descriptor_run req d s)), IH.
  by destruct (resolve accepts s d).
Qed.

Lemma scan_scope_run w req ty s :
  scan_scope accepts w req ty s =
  (Return (add_all req (scope_targets accepts s w ty)), s).
Proof.
  unfold scan_scope. rewrite bind_run. simpl. apply scan_descriptors_run.
Qed.

(** The workspaces that the hard scopes of [w] resolve to, in scan order. *)
Lemma scan_workspace_run w req s :
  scan_workspace accepts w req s =
  (Return (add_all req (scope_targets accepts s w Dependencies ++
                        scope_targets accepts s w DevDependencies)), s).
Proof.
  unfold scan_workspace, hardDependencies. simpl.
  rewrite (bind_return _ _ _ _ _ (scan_scope_run w req Dependencies s)).
  rewrite (bind_return _ _ _ _ _ (scan_scope_run w _ DevDependencies s)).
  unfold add_all. by rewrite foldl_app.
Qed.

Lemma hard_edge_targets s w w' :
  hard_edge accepts s w w' ↔
  w' ∈ scope_targets accepts s w Dependencies ++ scope_targets accepts s w DevDependencies.
Proof.
  unfold hard_edge, hardDependencies. rewrite elem_of_app. split.
  - intros (ty & Hty & Hin). set_unfold. destruct Hty as [->|[->|[]]]; auto.
  - intros [H|H]; eexists; (split; [|exact H]); set_solver.
Qed.

Lemma resolve_indexed s d w :
  resolve accepts s d = Some w → in_byIdent s w.
Proof.
  unfold resolve, in_byIdent. intros H.
  destruct (workspacesByIdent (project s) !! descriptor_identHash d) as [v|] eqn:E; [|done].
  destruct (accepts v (range d)); simplify_eq. eauto.
Qed.

Lemma hard_edge_indexed s w w' :
  hard_edge accepts s w w' → in_byIdent s w'.
Proof.
  intros (ty & _ & Hin). unfold scope_targets in Hin.
  apply list_elem_of_omap in Hin as (d & _ & Hd). by eapply resolve_indexed.
Qed.

Lemma closure_loop_step fuel i req s :
  closure_loop accepts (S fuel) i req s =
  match req !! i with
  | None => (Return req, s)
  | Some w =>
      closure_loop accepts fuel (S i)
        (add_all req (scope_targets accepts s w Dependencies ++
                      scope_targets accepts s w DevDependencies)) s
  end.
Proof.
  simpl. destruct (req !! i) as [w|]; [|done].
  by rewrite (bind_return _ _ _ _ _ (scan_workspace_run w req s)).
Qed.

Lemma closure_loop_read_only fuel : ∀ i req, read_only (closure_loop accepts fuel i req).
Proof.
  induction fuel as [|fuel IH]; intros i req s; [done |].
  rewrite closure_loop_step. destruct (req !! i); [apply IH | done].
Qed.

Lemma closure_loop_prefix fuel : ∀ i req s req' s',
  closure_loop accepts fuel i req s = (Return req', s') → req `prefix_of` req'.
Proof.
  induction fuel as [|fuel IH]; intros i req s req' s'; [done |].
  rewrite closure_loop_step. destruct (req !! i) as [w|].
  - intros H%IH. etrans; [apply add_all_prefix | exact H].
  - by intros [= -> _].
Qed.

Lemma closure_loop_closed fuel : ∀ i req s req' s',
  closure_loop accepts fuel i req s = (Return req', s') →
  scanned accepts s i req → hard_closed accepts s req'.
Proof.
  induction fuel as [|fuel IH]; intros i req s req' s'; [done |].
  rewrite closure_loop_step. destruct (req !! i) as [w|] eqn:Hi.
  - intros Hrun Hsc. apply (IH _ _ _ _ _ Hrun).
    intros j v v' Hj Hv Hedge. apply add_all_elem.
    destruct (decide (j < i)) as [Hlt|Hge].
    + left. apply (Hsc j v v' Hlt); [|done].
      destruct (lookup_lt_is_Some_2 req j) as [u Hu];
        [apply lookup_lt_Some in Hi; lia |].
      rewrite (prefix_lookup_Some _ _ _ _ Hu (add_all_prefix _ req)) in Hv.
      by simplify_eq.
    + assert (j = i) as -> by lia. right.
      rewrite (prefix_lookup_Some _ _ _ _ Hi (add_all_prefix _ req)) in Hv.
      simplify_eq. by apply hard_edge_targets.
  - intros [= -> _] Hsc v v' [j Hj]%list_elem_of_lookup Hedge.
    apply (Hsc j v v'); [|done..].
    apply lookup_lt_Some in Hj. apply lookup_ge_None in Hi. lia.
Qed.

Lemma closure_loop_reachable seed fuel : ∀ i req s req' s',
  closure_loop accepts fuel i req s = (Return req', s') →
  (∀ w, w ∈ req → hard_reachable accepts s seed w) →
  ∀ w, w ∈ req' → hard_reachable accepts s seed w.
Proof.
  induction fuel as [|fuel IH]; intros i req s req' s'; [done |].
  rewrite closure_loop_step. destruct (req !! i) as [w|] eqn:Hi.
  - intros Hrun Hreq. apply (IH _ _ _ _ _ Hrun).
    intros x [Hx|Hx]%add_all_elem; [auto |].
    destruct (Hreq w) as (v & Hv & Hvw); [by eapply list_elem_of_lookup_2 |].
    exists v. split; [done |]. eapply rtc_r; [exact Hvw |].
    by apply hard_edge_targets.
  - by intros [= -> _].
Qed.

Lemma closure_loop_NoDup fuel : ∀ i req s req' s',
  closure_loop accepts fuel i req s = (Return req', s') → NoDup req → NoDup req'.
Proof.
  induction fuel as [|fuel IH]; intros i req s req' s'; [done |].
  rewrite closure_loop_step. destruct (req !! i) as [w|].
  - intros Hrun Hnd. apply (IH _ _ _ _ _ Hrun), add_all_NoDup, Hnd.
  - by intros [= -> _].
Qed.

Lemma closure_loop_within (U : Workspace → Prop) fuel : ∀ i req s req' s',
  closure_loop accepts fuel i req s = (Return req', s') →
  (∀ w, in_byIdent s w → U w) → (∀ w, w ∈ req → U w) → ∀ w, w ∈ req' → U w.
Proof.
  induction fuel as [|fuel IH]; intros i req s req' s'; [done |].
  rewrite closure_loop_step. destruct (req !! i) as [w|].
  - intros Hrun HU Hreq. apply (IH _ _ _ _ _ Hrun HU).
    intros x [Hx|Hx]%add_all_elem; [auto |].
    apply HU. eapply hard_edge_indexed, hard_edge_targets, Hx.
  - by intros [= -> _].
Qed.

(** The loop ends: the set only grows by workspaces of [U], each at most
    once, and the iterator moves one position per step. *)
Lemma closure_loop_ends s seed U :
  (∀ w, in_byIdent s w → w ∈ U) →
  ∀ fuel i req, grown seed U req → i ≤ length req →
    length seed + length U < fuel + i →
    ∃ req', closure_loop accepts fuel i req s = (Return req', s).
Proof.
  intros HU. induction fuel as [|fuel IH]; intros i req Hg Hi Hfuel.
  - apply grown_length in Hg. lia.
  - rewrite closure_loop_step. destruct (req !! i) as [w|] eqn:Hw; [|eauto].
    apply IH.
    + apply add_all_grown; [|done].
      intros x Hx. eapply HU, hard_edge_indexed, hard_edge_targets, Hx.
    + apply lookup_lt_Some in Hw.
      pose proof (prefix_length _ _ (add_all_prefix
        (scope_targets accepts s w Dependencies ++
         scope_targets accepts s w DevDependencies) req)). lia.
    + lia.
Qed.

(** The fuel a run uses is the number of calls to the iterator: one per
    member of the final set from position [i] on, and the one that finds
    the end. *)
Lemma closure_loop_fuel fuel : ∀ i req s req' s',
  closure_loop accepts fuel i req s = (Return req', s') →
  i ≤ length req → length req' < fuel + i ∧
  ∀ fuel', closure_loop accepts fuel' i req s =
           if decide (length req' < fuel' + i) then (Return req', s) else (OutOfFuel, s).
Proof.
  induction fuel as [|fuel IH]; intros i req s req' s'; [done |].
  rewrite closure_loop_step. destruct (req !! i) as [w|] eqn:Hw.
  - intros Hrun Hi.
    pose proof (prefix_length _ _ (add_all_prefix
        (scope_targets accepts s w Dependencies ++
         scope_targets accepts s w DevDependencies) req)) as Hlen.
    pose proof (lookup_lt_Some _ _ _ Hw) as Hiw.
    destruct (IH _ _ _ _ _ Hrun) as [Hlt Hall]; [lia |].
    split; [lia |]. intros [|fuel'].
    + pose proof (closure_loop_prefix _ _ _ _ _ _ Hrun) as Hp%prefix_length.
      simpl. case_decide; [lia | done].
    + rewrite closure_loop_step, Hw, Hall.
      repeat case_decide; (done || lia).
  - intros [= -> _] Hi. pose proof (proj1 (lookup_ge_None _ _) Hw) as Hge.
    split; [lia |]. intros [|fuel'].
    + simpl. case_decide; [lia | done].
    + rewrite closure_loop_step, Hw. case_decide; [done | lia].
Qed.

End Closure.

(** ** The eviction *)

Lemma mutate_step_run this req ev w s :
  mutate_step this req ev w s =
  (Return (if decide (evicted req (topLevelWorkspace (project s)) w)
           then ev ++ [w] else ev),
   set_objects (alter (prune this req w) w) s).
Proof.
  unfold mutate_step, prune, evicted, Set_has.
  case_bool_decide as Hreq.
  - rewrite decide_False by tauto. destruct (production this); [done |].
    unfold mret, cmd_ret. f_equal. destruct s as [o p c]. unfold set_objects; simpl.
    f_equal. symmetry. by apply alter_id.
  - unfold clear, modify, gets. rewrite !bind_run. simpl.
    unfold set_objects. simpl. rewrite !alter_alter_eq.
    case_bool_decide; [rewrite decide_True by done | rewrite decide_False by tauto];
      reflexivity.
Qed.

Lemma mutate_loop_run this req ws : ∀ ev s,
  for_fold (mutate_step this req) ev ws s =
  (Return (ev ++ filter (evicted req (topLevelWorkspace (project s))) ws),
   set_objects (λ o, foldl (λ o w, alter (prune this req w) w o) o ws) s).
Proof.
  induction ws as [|w ws IH]; intros ev s; simpl.
  - unfold mret, cmd_ret. rewrite filter_nil, app_nil_r. by destruct s.
  - rewrite (bind_return _ _ _ _ _ (mutate_step_run this req ev w s)), IH. simpl.
    f_equal. rewrite filter_cons.
    destruct (decide (evicted req (topLevelWorkspace (project s)) w));
      [by rewrite <- (assoc_L (++)) | done].
Qed.

Lemma mutate_pass_run this req s :
  mutate_pass this req s =
  (Return (filter (evicted req (topLevelWorkspace (project s))) (workspaces (project s))),
   pruned_state this req s).
Proof. unfold mutate_pass. rewrite bind_run. simpl. apply mutate_loop_run. Qed.

Lemma remove_step_run e s :
  remove_step e s = (Return tt, set_project (remove_one (deref s e) e) s).
Proof. reflexivity. Qed.

Lemma removal_pass_run es : ∀ s,
  removal_pass es s =
  (Return tt, set_project (λ p, foldl (λ p e, remove_one (deref s e) e p) p es) s).
Proof.
  unfold removal_pass. induction es as [|e es IH]; intros s; simpl.
  - unfold mret, cmd_ret. by destruct s.
  - rewrite (bind_return _ _ _ _ _ (remove_step_run e s)), IH. reflexivity.
Qed.

Lemma evict_run this req s :
  evict this req s = (Return tt, evicted_state this req s).
Proof.
  unfold evict.
  rewrite (bind_return _ _ _ _ _ (mutate_pass_run this req s)).
  apply removal_pass_run.
Qed.

(** *** The store after the manifest pass *)

Lemma clear_in_obj_blank ty : clear_in_obj ty blank_workspace = blank_workspace.
Proof. by destruct ty. Qed.

Lemma prune_blank this req w : prune this req w blank_workspace = blank_workspace.
Proof.
  unfold prune. destruct (Set_has req w), (production this);
    by rewrite ?clear_in_obj_blank.
Qed.

Lemma prune_idemp this req w o :
  prune this req w (prune this req w o) = prune this req w o.
Proof. unfold prune. by destruct (Set_has req w), (production this). Qed.

Lemma prune_cwd this req w o : cwd (prune this req w o) = cwd o.
Proof. unfold prune. by destruct (Set_has req w), (production this). Qed.

Lemma prune_locator this req w o : locator (prune this req w o) = locator o.
Proof. unfold prune. by destruct (Set_has req w), (production this). Qed.

Lemma lookup_pruned this req ws w : ∀ o : gmap Workspace WorkspaceObj,
  foldl (λ o w, alter (prune this req w) w o) o ws !! w =
  if decide (w ∈ ws) then prune this req w <$> o !! w else o !! w.
Proof.
  induction ws as [|a ws IH]; intros o; simpl.
  - done.
  - rewrite IH, lookup_alter. destruct (decide (a = w)) as [->|Hne].
    + rewrite (decide_True (P := w ∈ w :: ws)) by left.
      case_decide; [|done]. rewrite <- option_fmap_compose.
      apply option_fmap_ext. intros x. apply prune_idemp.
    + destruct (decide (w ∈ ws)) as [Hin|Hin].
      * by rewrite decide_True by by right.
      * rewrite decide_False; [done |]. by intros [?|?]%elem_of_cons.
Qed.

Lemma deref_pruned this req s w :
  deref (pruned_state this req s) w =
  if decide (w ∈ workspaces (project s)) then prune this req w (deref s w)
  else deref s w.
Proof.
  unfold deref, pruned_state. simpl. rewrite lookup_pruned.
  case_decide; [|done]. destruct (objects s !! w); simpl; [done |].
  by rewrite prune_blank.
Qed.

Lemma deref_pruned_cwd this req s w :
  cwd (deref (pruned_state this req s) w) = cwd (deref s w).
Proof. rewrite deref_pruned. case_decide; [apply prune_cwd | done]. Qed.

Lemma deref_pruned_locator this req s w :
  locator (deref (pruned_state this req s) w) = locator (deref s w).
Proof. rewrite deref_pruned. case_decide; [apply prune_locator | done]. Qed.

(** *** The project after the removal pass *)

Lemma indexOf_first pre w l :
  w ∉ pre → indexOf (pre ++ w :: l) w = Z.of_nat (length pre).
Proof.
  intros Hpre. unfold indexOf.
  assert (list_find (λ x, x = w) (pre ++ w :: l) = Some (length pre, w)) as ->; [|done].
  apply list_find_Some. split_and!; [|done |].
  - by rewrite list_lookup_middle.
  - intros j y Hj Hlt ->. apply Hpre.
    rewrite lookup_app_l in Hj by done. by eapply list_elem_of_lookup_2.
Qed.

Lemma splice_first pre w l :
  w ∉ pre → splice1 (indexOf (pre ++ w :: l) w) (pre ++ w :: l) = pre ++ l.
Proof.
  intros Hpre. rewrite indexOf_first by done. unfold splice1.
  assert ((Z.of_nat (length pre) <? 0)%Z = false) as -> by (apply Z.ltb_ge; lia).
  rewrite length_app. simpl.
  replace (Z.to_nat (Z.of_nat (length pre) `min` Z.of_nat (length pre + S (length l))))
    with (length pre) by lia.
  apply delete_middle.
Qed.

(** Splicing out, one after the other, the workspaces that satisfy [P]
    leaves the others, in their order. *)
Lemma splice_filter (P : Workspace → Prop) `{∀ x, Decision (P x)} l : ∀ pre,
  Forall (λ x, ¬ P x) pre →
  foldl (λ l e, splice1 (indexOf l e) l) (pre ++ l) (filter P l) =
  pre ++ filter (λ x, ¬ P x) l.
Proof.
  induction l as [|a l IH]; intros pre Hpre; [done |].
  rewrite !filter_cons. destruct (decide (P a)) as [Ha|Ha].
  - rewrite decide_False by tauto. simpl. rewrite splice_first; [by apply IH |].
    intros Hin. by eapply (proj1 (Forall_forall _ _) Hpre).
  - rewrite decide_True by done.
    rewrite (cons_middle a pre l), (assoc_L (++)), IH, <- (assoc_L (++)); [done |].
    apply Forall_app. split; [done |]. by apply Forall_singleton.
Qed.

Lemma remove_fold_workspaces (O : Workspace → WorkspaceObj) es : ∀ p,
  workspaces (foldl (λ p e, remove_one (O e) e p) p es) =
  foldl (λ l e, splice1 (indexOf l e) l) (workspaces p) es.
Proof. induction es as [|e es IH]; intros p; simpl; [done | by rewrite IH]. Qed.

Lemma remove_fold_byCwd (O : Workspace → WorkspaceObj) es : ∀ p,
  workspacesByCwd (foldl (λ p e, remove_one (O e) e p) p es) =
  foldl (λ m e, delete (cwd (O e)) m) (workspacesByCwd p) es.
Proof. induction es as [|e es IH]; intros p; simpl; [done | by rewrite IH]. Qed.

Lemma remove_fold_byIdent (O : Workspace → WorkspaceObj) es : ∀ p,
  workspacesByIdent (foldl (λ p e, remove_one (O e) e p) p es) =
  foldl (λ m e, delete (locator_identHash (locator (O e))) m) (workspacesByIdent p) es.
Proof. induction es as [|e es IH]; intros p; simpl; [done | by rewrite IH]. Qed.

Lemma remove_fold_top (O : Workspace → WorkspaceObj) es : ∀ p,
  topLevelWorkspace (foldl (λ p e, remove_one (O e) e p) p es) = topLevelWorkspace p.
Proof. induction es as [|e es IH]; intros p; simpl; [done | by rewrite IH]. Qed.

Lemma lookup_delete_fold (key : Workspace → string) es k w :
  ∀ m : gmap string Workspace,
  foldl (λ m e, delete (key e) m) m es !! k = Some w ↔
  m !! k = Some w ∧ ∀ e, e ∈ es → key e ≠ k.
Proof.
  induction es as [|e es IH]; intros m; simpl.
  - split; [intros ?; split; [done | by intros ? ?%elem_of_nil] | by intros [? _]].
  - rewrite IH, lookup_delete_Some. split.
    + intros [[Hne Hm] Hes]. split; [done |].
      by intros x [->|?]%elem_of_cons; auto.
    + intros [Hm Hes]. split_and!; [apply Hes; by left | done |].
      intros x Hx. apply Hes. by right.
Qed.

(** *** The state after the eviction *)

Lemma evicted_workspaces this req s :
  workspaces (project (evicted_state this req s)) =
  filter (λ w, ¬ evicted req (topLevelWorkspace (project s)) w) (workspaces (project s)).
Proof.
  unfold evicted_state. simpl. rewrite remove_fold_workspaces. simpl.
  apply (splice_filter (evicted req (topLevelWorkspace (project s))) _ []), Forall_nil_2.
Qed.

Lemma evicted_byCwd this req s k w :
  workspacesByCwd (project (evicted_state this req s)) !! k = Some w ↔
  workspacesByCwd (project s) !! k = Some w ∧
  ∀ e, e ∈ workspaces (project s) → evicted req (topLevelWorkspace (project s)) e →
       cwd (deref s e) ≠ k.
Proof.
  unfold evicted_state. simpl. rewrite remove_fold_byCwd. simpl.
  rewrite (lookup_delete_fold (λ e, cwd (deref (pruned_state this req s) e))).
  setoid_rewrite deref_pruned_cwd. setoid_rewrite list_elem_of_filter.
  split; intros [Hk Hdel]; (split; [done |]); intros e.
  - intros He Hev. by apply Hdel.
  - intros [Hev He]. by apply Hdel.
Qed.

Lemma evicted_byIdent this req s k w :
  workspacesByIdent (project (evicted_state this req s)) !! k = Some w ↔
  workspacesByIdent (project s) !! k = Some w ∧
  ∀ e, e ∈ workspaces (project s) → evicted req (topLevelWorkspace (project s)) e →
       locator_identHash (locator (deref s e)) ≠ k.
Proof.
  unfold evicted_state. simpl. rewrite remove_fold_byIdent. simpl.
  rewrite (lookup_delete_fold
             (λ e, locator_identHash (locator (deref (pruned_state this req s) e)))).
  setoid_rewrite deref_pruned_locator. setoid_rewrite list_elem_of_filter.
  split; intros [Hk Hdel]; (split; [done |]); intros e.
  - intros He Hev. by apply Hdel.
  - intros [Hev He]. by apply Hdel.
Qed.

Lemma evicted_top this req s :
  topLevelWorkspace (project (evicted_state this req s)) = topLevelWorkspace (project s).
Proof. unfold evicted_state. simpl. by rewrite remove_fold_top. Qed.

Lemma evicted_calls this req s : calls (evicted_state this req s) = calls s.
Proof. reflexivity. Qed.

Lemma evicted_deref this req s w :
  deref (evicted_state this req s) w =
  if decide (w ∈ workspaces (project s)) then prune this req w (deref s w)
  else deref s w.
Proof. apply deref_pruned. Qed.

Lemma evicted_cwd this req s w :
  cwd (deref (evicted_state this req s) w) = cwd (deref s w).
Proof. apply deref_pruned_cwd. Qed.

Lemma evicted_locator this req s w :
  locator (deref (evicted_state this req s) w) = locator (deref s w).
Proof. apply deref_pruned_locator. Qed.

Lemma prune_unrequired this req w o :
  w ∉ req → manifest (prune this req w o) = empty_manifest.
Proof.
  intros Hw. unfold prune, Set_has. by rewrite bool_decide_eq_false_2.
Qed.

Lemma prune_required this req w o :
  w ∈ req →
  manifest (prune this req w o) =
  if production this then clear_scope DevDependencies (manifest o) else manifest o.
Proof.
  intros Hw. unfold prune, Set_has. rewrite bool_decide_eq_true_2 by done.
  by destruct (production this).
Qed.

Lemma evicted_consistent this req s :
  project_consistent s → project_consistent (evicted_state this req s).
Proof.
  intros (Hl & Hc & Hi & Ht). rewrite Forall_forall in Hl.
  unfold project_consistent. rewrite evicted_workspaces, evicted_top. split_and!.
  - apply Forall_forall. intros w [Hkeep Hw]%list_elem_of_filter.
    rewrite evicted_cwd, evicted_locator, evicted_byCwd, evicted_byIdent.
    destruct (Hl w Hw) as [Hwc Hwi]. split_and!; [done | | done |].
    + intros e He Hev Heq. destruct (Hl e He) as [Hec _]. congruence.
    + intros e He Hev Heq. destruct (Hl e He) as [_ Hei]. congruence.
  - intros k w [Hk Hdel]%evicted_byCwd. destruct (Hc k w Hk) as [Hkw Hw].
    rewrite evicted_cwd. split; [done |].
    apply list_elem_of_filter. split; [|done]. intros Hev. by apply (Hdel w).
  - intros k w [Hk Hdel]%evicted_byIdent. destruct (Hi k w Hk) as [Hkw Hw].
    rewrite evicted_locator. split; [done |].
    apply list_elem_of_filter. split; [|done]. intros Hev. by apply (Hdel w).
  - apply list_elem_of_filter. split; [|done]. by intros [_ ?].
Qed.

Lemma consistent_in_byCwd s w :
  project_consistent s → in_list s w ↔ in_byCwd s w.
Proof.
  intros (Hl & Hc & _). rewrite Forall_forall in Hl. unfold in_list, in_byCwd. split.
  - intros Hw. destruct (Hl w Hw). eauto.
  - intros [k Hk]. by destruct (Hc k w Hk).
Qed.

Lemma consistent_in_byIdent s w :
  project_consistent s → in_list s w ↔ in_byIdent s w.
Proof.
  intros (Hl & _ & Hi & _). rewrite Forall_forall in Hl. unfold in_list, in_byIdent. split.
  - intros Hw. destruct (Hl w Hw). eauto.
  - intros [k Hk]. by destruct (Hi k w Hk).
Qed.

Lemma evicted_filter_nil req top l :
  filter (evicted req top) (filter (λ w, ¬ evicted req top w) l) = [].
Proof.
  induction l as [|a l IH]; [done |].
  rewrite (filter_cons (λ w, ¬ evicted req top w)).
  destruct (decide (¬ evicted req top a)); [|done].
  by rewrite filter_cons_False.
Qed.

Lemma evicted_state_idemp this req s :
  evicted_state this req (evicted_state this req s) = evicted_state this req s.
Proof.
  unfold evicted_state at 1.
  rewrite evicted_top, evicted_workspaces, evicted_filter_nil. simpl.
  unfold pruned_state at 1. rewrite evicted_workspaces.
  assert (foldl (λ o w, alter (prune this req w) w o)
            (objects (evicted_state this req s))
            (filter (λ w, ¬ evicted req (topLevelWorkspace (project s)) w)
                    (workspaces (project s)))
          = objects (evicted_state this req s)) as Hobj.
  { apply map_eq. intros w. rewrite lookup_pruned.
    case_decide as Hw; [|done]. apply list_elem_of_filter in Hw as [_ Hw].
    unfold evicted_state, pruned_state. simpl. rewrite lookup_pruned.
    rewrite decide_True by done. rewrite <- option_fmap_compose.
    apply option_fmap_ext. intros x. apply prune_idemp. }
  revert Hobj. generalize (evicted_state this req s). intros [o [] c] Hobj.
  unfold set_project, set_objects. simpl in *. by rewrite Hobj.
Qed.

(** ** Seed selection and the install *)

Section Run.

Variable parseIdent : string → Ident.
Variable accepts : Workspace → string → bool.
Variable install_routine :
  bool → StreamReport → gmap Workspace WorkspaceObj → Project →
  option string * StreamReport * gmap Workspace WorkspaceObj * Project.

Lemma getWorkspaceByIdent_run ident s :
  getWorkspaceByIdent ident s =
  (match workspacesByIdent (project s) !! identHash ident with
   | Some w => Return w
   | None => Throw (UnknownWorkspace ident)
   end, s).
Proof.
  unfold getWorkspaceByIdent, tryWorkspaceByIdent. rewrite bind_run. simpl.
  by destruct (workspacesByIdent (project s) !! identHash ident).
Qed.

Lemma names_resolved s names ws :
  Forall2 (named parseIdent s) names ws →
  array_map (λ name, getWorkspaceByIdent (parseIdent name)) names s = (Return ws, s).
Proof.
  induction 1 as [|name w names ws Hw _ IH]; simpl; [done |].
  rewrite bind_run, getWorkspaceByIdent_run, Hw, bind_run, IH. reflexivity.
Qed.

Lemma names_unresolved s names :
  Exists (unknown parseIdent s) names →
  ∃ name, name ∈ names ∧ unknown parseIdent s name ∧
    array_map (λ name, getWorkspaceByIdent (parseIdent name)) names s =
    (Throw (UnknownWorkspace (parseIdent name)), s).
Proof.
  induction names as [|name names IH]; intros Hex; [by apply Exists_nil in Hex |].
  simpl. rewrite bind_run, getWorkspaceByIdent_run.
  destruct (workspacesByIdent (project s) !! identHash (parseIdent name)) as [w|] eqn:Hw.
  - apply Exists_cons in Hex as [Hex|Hex]; [unfold unknown in Hex; congruence |].
    destruct (IH Hex) as (bad & Hin & Hbad & Hrun).
    exists bad. split_and!; [by right | done |]. by rewrite bind_run, Hrun.
  - exists name. split_and!; [by left | done..].
Qed.

Lemma select_required_read_only this workspace :
  read_only (select_required parseIdent this workspace).
Proof.
  unfold select_required. destruct (all this).
  { apply read_only_bind; auto with ro. }
  destruct (length (cmd_workspaces this) =? 0).
  { destruct workspace; [auto with ro |]. apply read_only_bind; auto with ro. }
  apply read_only_bind; [|auto with ro].
  apply array_map_read_only. intros name s. by rewrite getWorkspaceByIdent_run.
Qed.

Lemma array_map_no_install_failure names : ∀ s e s',
  array_map (λ name, getWorkspaceByIdent (parseIdent name)) names s = (Throw e, s') →
  ∃ ident, e = UnknownWorkspace ident.
Proof.
  induction names as [|name names IH]; intros s e s'; simpl; [done |].
  rewrite bind_run, getWorkspaceByIdent_run.
  destruct (workspacesByIdent (project s) !! identHash (parseIdent name)).
  - rewrite bind_run.
    destruct (array_map _ names s) as [[ws|e'|] s''] eqn:Hrun; try done.
    intros [= <- <-]. by eapply IH.
  - intros [= <- <-]. eauto.
Qed.

(** Seed selection throws nothing but its two errors. *)
Lemma select_required_errors this workspace s e s' :
  select_required parseIdent this workspace s = (Throw e, s') →
  ∀ message, e ≠ InstallFailure message.
Proof.
  unfold select_required. destruct (all this); [done |].
  destruct (length (cmd_workspaces this) =? 0).
  { destruct workspace; [done |]. rewrite bind_run. simpl. by intros [= <- <-]. }
  rewrite bind_run.
  destruct (array_map _ (cmd_workspaces this) s) as [[ws|e'|] s''] eqn:Hrun; try done.
  intros [= <- <-] message. apply array_map_no_install_failure in Hrun as [ident ->]. done.
Qed.

Lemma select_required_in_fuel this workspace s s' :
  select_required parseIdent this workspace s ≠ (OutOfFuel, s').
Proof.
  unfold select_required. destruct (all this); [done |].
  destruct (length (cmd_workspaces this) =? 0).
  { by destruct workspace. }
  rewrite bind_run.
  destruct (array_map _ (cmd_workspaces this) s) as [[ws|e'|] s''] eqn:Hrun; try done.
  exfalso. clear -Hrun. revert s s'' Hrun.
  induction (cmd_workspaces this) as [|name names IH]; intros s s''; simpl; [done |].
  rewrite bind_run, getWorkspaceByIdent_run.
  destruct (workspacesByIdent (project s) !! identHash (parseIdent name)); [|done].
  rewrite bind_run. destruct (array_map _ names s) as [[ws|e'|] s1] eqn:Hrun; try done.
  intros _. by eapply IH.
Qed.

Lemma Set_new_length l : length (Set_new l) ≤ length l.
Proof.
  apply submseteq_length, NoDup_submseteq; [apply Set_new_NoDup |].
  intros x. by rewrite Set_new_elem.
Qed.

Lemma array_map_length names : ∀ s ws s',
  array_map (λ name, getWorkspaceByIdent (parseIdent name)) names s = (Return ws, s') →
  length ws = length names.
Proof.
  induction names as [|name names IH]; intros s ws s'; simpl.
  - by intros [= <- _].
  - rewrite bind_run, getWorkspaceByIdent_run.
    destruct (workspacesByIdent (project s) !! identHash (parseIdent name)); [|done].
    rewrite bind_run.
    destruct (array_map _ names s) as [[ws'|e'|] s''] eqn:Hrun; try done.
    intros [= <- _]. simpl. f_equal. by eapply IH.
Qed.

(** The seed is no larger than what it is built from. *)
Lemma select_required_length this workspace s seed s' :
  select_required parseIdent this workspace s = (Return seed, s') →
  length seed ≤ length (workspaces (project s)) + length (cmd_workspaces this) + 1.
Proof.
  unfold select_required. destruct (all this).
  { rewrite bind_run. simpl. intros [= <- _].
    pose proof (Set_new_length (workspaces (project s))). lia. }
  destruct (length (cmd_workspaces this) =? 0).
  { destruct workspace as [w|]; [|done]. intros [= <- _]. simpl. lia. }
  rewrite bind_run.
  destruct (array_map _ (cmd_workspaces this) s) as [[ws|e'|] s''] eqn:Hrun; try done.
  intros [= <- _]. apply array_map_length in Hrun.
  pose proof (Set_new_length ws). lia.
Qed.

Lemma closure_loop_no_throw fuel : ∀ i req s e s',
  closure_loop accepts fuel i req s ≠ (Throw e, s').
Proof.
  induction fuel as [|fuel IH]; intros i req s e s'; [done |].
  rewrite closure_loop_step. destruct (req !! i); [apply IH | done].
Qed.

Lemma install_run s :
  StreamReport_start (install_callback install_routine) s =
  match install_routine false {| exitCode := 0 |} (objects s) (project s) with
  | (Some message, _, o, p) =>
      (Throw (InstallFailure message),
       {| objects := o; project := p; calls := calls s ++ [EvInstall false] |})
  | (None, report, o, p) =>
      (Return report,
       {| objects := o; project := p;
          calls := calls s ++ [EvInstall false; EvPersistInstallStateFile] |})
  end.
Proof.
  unfold StreamReport_start, install_callback, project_install. rewrite bind_run.
  destruct (install_routine _ _ _ _) as [[[[message|] report] o] p]; [done |].
  rewrite bind_run. simpl. unfold log_call. simpl. by rewrite <- (assoc_L (++)).
Qed.

(** The command in terms of its phases. *)
Lemma execute_run fuel this workspace s :
  execute parseIdent accepts install_routine fuel this workspace s =
  match select_required parseIdent this workspace s with
  | (Return seed, _) =>
      match closure_loop accepts fuel 0 seed s with
      | (Return req, _) =>
          match StreamReport_start (install_callback install_routine)
                  (evicted_state this req s) with
          | (Return report, s') => (Return (exitCode report), s')
          | (Throw e, s') => (Throw e, s')
          | (OutOfFuel, s') => (OutOfFuel, s')
          end
      | (Throw e, _) => (Throw e, s)
      | (OutOfFuel, _) => (OutOfFuel, s)
      end
  | (Throw e, _) => (Throw e, s)
  | (OutOfFuel, _) => (OutOfFuel, s)
  end.
Proof.
  unfold execute. rewrite bind_run.
  pose proof (select_required_read_only this workspace s) as Hsel.
  destruct (select_required parseIdent this workspace s) as [[seed|e|] s0];
    simpl in Hsel; subst s0; [|done..].
  rewrite bind_run.
  pose proof (closure_loop_read_only accepts fuel 0 seed s) as Hclo.
  destruct (closure_loop accepts fuel 0 seed s) as [[req|e|] s0];
    simpl in Hclo; subst s0; [|done..].
  rewrite bind_run, evict_run, bind_run.
  by destruct (StreamReport_start _ _) as [[report|e|] s'].
Qed.

End Run.

(** ** The properties of the command *)

Lemma index_values s w :
  in_byIdent s w → w ∈ (map_to_list (workspacesByIdent (project s))).*2.
Proof.
  intros [k Hk]. apply list_elem_of_fmap. exists (k, w).
  split; [done |]. by apply elem_of_map_to_list.
Qed.

Lemma index_values_length s :
  length (map_to_list (workspacesByIdent (project s))).*2 =
  size (workspacesByIdent (project s)).
Proof. by rewrite length_fmap, length_map_to_list. Qed.

Lemma grown_refl seed U : grown seed U seed.
Proof.
  exists []. split_and!; [by rewrite app_nil_r | apply NoDup_nil_2 |].
  by intros x ?%elem_of_nil.
Qed.

Lemma closure_loop_returns accepts s seed fuel :
  length seed + size (workspacesByIdent (project s)) < fuel →
  ∃ req, closure_loop accepts fuel 0 seed s = (Return req, s).
Proof.
  intros Hfuel.
  apply (closure_loop_ends accepts s seed
           (map_to_list (workspacesByIdent (project s))).*2).
  - apply index_values.
  - apply grown_refl.
  - lia.
  - rewrite index_values_length. lia.
Qed.

Lemma scanned_0 accepts s req : scanned accepts s 0 req.
Proof. intros j w w' Hj. lia. Qed.

Lemma hard_closed_reachable accepts s seed req :
  (∀ w, w ∈ seed → w ∈ req) → hard_closed accepts s req →
  ∀ w, hard_reachable accepts s seed w → w ∈ req.
Proof.
  intros Hseed Hclosed w (v & Hv%Hseed & Hpath).
  induction Hpath as [v|v u w Hedge _ IH]; [done |].
  apply IH. by eapply Hclosed.
Qed.

Lemma scope_targets_agree accepts s1 s2 w ty :
  hard_scopes_agree s1 s2 → ty ∈ hardDependencies →
  scope_targets accepts s1 w ty = scope_targets accepts s2 w ty.
Proof.
  intros [Hidx Hsc] Hty. destruct (Hsc w) as [Hdep Hdev].
  unfold scope_targets, resolve, scopes_of in *. rewrite Hidx.
  unfold hardDependencies in Hty. set_unfold.
  destruct Hty as [->|[->|[]]]; simpl; by rewrite ?Hdep, ?Hdev.
Qed.

Lemma closure_loop_agree accepts s1 s2 fuel :
  hard_scopes_agree s1 s2 → ∀ i req,
  (closure_loop accepts fuel i req s1).1 = (closure_loop accepts fuel i req s2).1.
Proof.
  intros Hagree. induction fuel as [|fuel IH]; intros i req; [done |].
  rewrite !closure_loop_step.
  destruct (req !! i) as [w|]; [|done].
  rewrite (scope_targets_agree accepts s1 s2 w Dependencies),
          (scope_targets_agree accepts s1 s2 w DevDependencies);
    [apply IH | done | set_solver | done | set_solver].
Qed.

(** C1.  For every project and every seed, the closure loop returns (given
    one unit of fuel per possible member and one more), and the set it
    returns contains the seed and is closed under hard-dependency edges:
    whenever a descriptor in the [dependencies] or [devDependencies] scope
    of a required workspace resolves to a workspace of the project, that
    workspace is required too. *)
Theorem closure_superset_closed accepts s seed fuel :
  length seed + size (workspacesByIdent (project s)) < fuel →
  ∃ req, closure_loop accepts fuel 0 seed s = (Return req, s) ∧
    (∀ w, w ∈ seed → w ∈ req) ∧
    (∀ w w', w ∈ req → hard_edge accepts s w w' → w' ∈ req).
Proof.
  intros Hfuel. destruct (closure_loop_returns accepts s seed fuel Hfuel) as [req Hrun].
  exists req. split_and!; [done | |].
  - intros w Hw. pose proof (closure_loop_prefix _ _ _ _ _ _ _ Hrun) as [extra ->].
    apply elem_of_app. by left.
  - apply (closure_loop_closed _ _ _ _ _ _ _ Hrun), scanned_0.
Qed.

Lemma closure_superset_closed_witness :
  length [demo_A] + size (workspacesByIdent (project demo_state)) < 6 ∧
  ∃ req, closure_loop demo_accepts 6 0 [demo_A] demo_state = (Return req, demo_state) ∧
    (∀ w, w ∈ [demo_A] → w ∈ req) ∧
    (∀ w w', w ∈ req → hard_edge demo_accepts demo_state w w' → w' ∈ req).
Proof.
  assert (length [demo_A] + size (workspacesByIdent (project demo_state)) < 6) as H
    by (vm_compute; lia).
  split; [exact H |].
  exact (closure_superset_closed demo_accepts demo_state [demo_A] 6 H).
Defined.

(** C9.  The closure phase only reads: seed selection leaves the state as
    it was loaded, whatever its outcome; so does the closure loop from any
    seed and with any fuel; and so do the two in sequence.  The state
    comprises the store of workspace objects (hence every manifest scope,
    resolved or not), the ordered list, both indexes and the call log. *)
Theorem closure_phase_read_only parseIdent accepts this workspace fuel s :
  (select_required parseIdent this workspace s).2 = s ∧
  (∀ seed, (closure_loop accepts fuel 0 seed s).2 = s) ∧
  ((select_required parseIdent this workspace ≫= closure_loop accepts fuel 0) s).2 = s.
Proof.
  split_and!.
  - apply select_required_read_only.
  - intros seed. apply closure_loop_read_only.
  - apply read_only_bind; [apply select_required_read_only |].
    intros seed. apply closure_loop_read_only.
Qed.

(** C6.  Peer-dependency edges never expand the closure.  The required set
    is exactly the set of workspaces reachable from the seed through hard
    edges, so a peer dependency of a required workspace is not required
    unless hard edges reach it too; the loop returns the same set in any
    state that agrees on the
    by-identity index and on the [dependencies] and [devDependencies]
    scopes, whatever the [peerDependencies] scopes hold; and the eviction
    still empties the [peerDependencies] scope of every workspace of the
    project that is not required. *)
Theorem peer_edges_never_expand accepts this s seed fuel :
  length seed + size (workspacesByIdent (project s)) < fuel →
  ∃ req, closure_loop accepts fuel 0 seed s = (Return req, s) ∧
    (∀ w, w ∈ req ↔ hard_reachable accepts s seed w) ∧
    (∀ w w', w ∈ req → peer_edge accepts s w w' →
             ¬ hard_reachable accepts s seed w' → w' ∉ req) ∧
    (∀ s2, hard_scopes_agree s s2 →
           closure_loop accepts fuel 0 seed s2 = (Return req, s2)) ∧
    (∀ w, w ∈ workspaces (project s) → w ∉ req →
          peerDependencies (scopes_of (evict this req s).2 w) = []).
Proof.
  intros Hfuel. destruct (closure_loop_returns accepts s seed fuel Hfuel) as [req Hrun].
  assert (∀ w, w ∈ req → hard_reachable accepts s seed w) as Hreach.
  { apply (closure_loop_reachable _ seed _ _ _ _ _ _ Hrun).
    intros v Hv. exists v. split; [done | apply rtc_refl]. }
  exists req. split_and!; [done | | | |].
  - intros w. split; [apply Hreach |].
    + apply hard_closed_reachable.
      * intros v Hv. pose proof (closure_loop_prefix _ _ _ _ _ _ _ Hrun) as [extra ->].
        apply elem_of_app. by left.
      * apply (closure_loop_closed _ _ _ _ _ _ _ Hrun), scanned_0.
  - intros w w' _ _ Hnot Hin. by apply Hnot, Hreach.
  - intros s2 Hagree.
    pose proof (closure_loop_agree accepts s s2 fuel Hagree 0 seed) as Heq.
    pose proof (closure_loop_read_only accepts fuel 0 seed s2) as Hro.
    rewrite Hrun in Heq. simpl in Heq.
    destruct (closure_loop accepts fuel 0 seed s2) as [out s2']. simpl in *.
    by subst.
  - intros w Hw Hreq. rewrite evict_run. simpl. unfold scopes_of.
    rewrite evicted_deref, decide_True by done.
    by rewrite prune_unrequired.
Qed.

Lemma peer_edges_never_expand_witness :
  length [demo_A] + size (workspacesByIdent (project demo_state)) < 6 ∧
  ∃ req, closure_loop demo_accepts 6 0 [demo_A] demo_state = (Return req, demo_state) ∧
    (∀ w, w ∈ req ↔ hard_reachable demo_accepts demo_state [demo_A] w) ∧
    (∀ w w', w ∈ req → peer_edge demo_accepts demo_state w w' →
             ¬ hard_reachable demo_accepts demo_state [demo_A] w' → w' ∉ req) ∧
    (∀ s2, hard_scopes_agree demo_state s2 →
           closure_loop demo_accepts 6 0 [demo_A] s2 = (Return req, s2)) ∧
    (∀ w, w ∈ workspaces (project demo_state) → w ∉ req →
          peerDependencies (scopes_of (evict (demo_focus ["A"] false) req demo_state).2 w) = []).
Proof.
  assert (length [demo_A] + size (workspacesByIdent (project demo_state)) < 6) as H
    by (vm_compute; lia).
  split; [exact H |].
  exact (peer_edges_never_expand demo_accepts (demo_focus ["A"] false)
           demo_state [demo_A] 6 H).
Defined.

(** C10.  The closure loop terminates.  In a consistent project and from a
    seed of distinct workspaces of the project, the loop returns a set
    [req] that extends the seed, has no workspace twice and holds only
    workspaces of the project's list.  Each call to the set's iterator
    takes one unit of fuel: the loop returns exactly when the fuel exceeds
    the size of [req], that is after one scan per member and the call that
    finds the end; and [req] has at most as many members as the project
    has workspaces. *)
Theorem closure_terminates accepts s seed :
  project_consistent s → NoDup seed →
  Forall (λ w, w ∈ workspaces (project s)) seed →
  ∃ req,
    (∀ fuel, closure_loop accepts fuel 0 seed s =
             if decide (length req < fuel) then (Return req, s) else (OutOfFuel, s)) ∧
    seed `prefix_of` req ∧ NoDup req ∧
    (∀ w, w ∈ req → w ∈ workspaces (project s)) ∧
    length req ≤ length (workspaces (project s)).
Proof.
  intros Hcons Hnd Hseed. rewrite Forall_forall in Hseed.
  assert (∀ w, in_byIdent s w → w ∈ workspaces (project s)) as Hidx.
  { intros w Hw. by apply (consistent_in_byIdent s w Hcons). }
  destruct (closure_loop_ends accepts s seed (workspaces (project s)) Hidx
              (S (length seed + length (workspaces (project s)))) 0 seed)
    as [req Hrun]; [apply grown_refl | lia | lia |].
  pose proof (closure_loop_NoDup _ _ _ _ _ _ _ Hrun Hnd) as Hnd'.
  pose proof (closure_loop_within _ (λ w, w ∈ workspaces (project s))
                _ _ _ _ _ _ Hrun Hidx Hseed) as Hin.
  destruct (closure_loop_fuel _ _ _ _ _ _ _ Hrun) as [_ Hall]; [lia |].
  exists req. split_and!; [| by eapply closure_loop_prefix | done | done |].
  - intros fuel. rewrite Hall. by replace (fuel + 0) with fuel by lia.
  - apply submseteq_length, NoDup_submseteq; done.
Qed.

Lemma closure_terminates_witness :
  project_consistent demo_state ∧ NoDup [demo_A] ∧
  Forall (λ w, w ∈ workspaces (project demo_state)) [demo_A] ∧
  ∃ req,
    (∀ fuel, closure_loop demo_accepts fuel 0 [demo_A] demo_state =
             if decide (length req < fuel) then (Return req, demo_state)
             else (OutOfFuel, demo_state)) ∧
    [demo_A] `prefix_of` req ∧ NoDup req ∧
    (∀ w, w ∈ req → w ∈ workspaces (project demo_state)) ∧
    length req ≤ length (workspaces (project demo_state)).
Proof.
  assert (project_consistent demo_state) as H1
    by (apply (bool_decide_unpack _); vm_compute; exact I).
  assert (NoDup [demo_A]) as H2 by (apply (bool_decide_unpack _); vm_compute; exact I).
  assert (Forall (λ w, w ∈ workspaces (project demo_state)) [demo_A]) as H3
    by (apply (bool_decide_unpack _); vm_compute; exact I).
  split_and!; [exact H1 | exact H2 | exact H3 |].
  exact (closure_terminates demo_accepts demo_state [demo_A] H1 H2 H3).
Defined.

(** C2.  In a consistent project, after the eviction every workspace of the
    project that is neither required nor the top-level workspace has its
    three dependency scopes empty and is in none of the ordered list, the
    by-path index and the by-identity index; and the list and the two
    indexes still hold the same workspaces, the project being consistent
    again. *)
Theorem eviction_removes_unrequired this req s :
  project_consistent s →
  let s' := (evict this req s).2 in
  (∀ w, w ∈ workspaces (project s) → w ∉ req → w ≠ topLevelWorkspace (project s) →
     dependencies (scopes_of s' w) = [] ∧
     devDependencies (scopes_of s' w) = [] ∧
     peerDependencies (scopes_of s' w) = [] ∧
     ¬ in_list s' w ∧ ¬ in_byCwd s' w ∧ ¬ in_byIdent s' w) ∧
  (∀ w, in_list s' w ↔ in_byCwd s' w) ∧
  (∀ w, in_list s' w ↔ in_byIdent s' w) ∧
  project_consistent s'.
Proof.
  intros Hcons s'. subst s'. rewrite evict_run. simpl.
  pose proof (evicted_consistent this req s Hcons) as Hcons'.
  split_and!; [| by intros w; apply consistent_in_byCwd
               | by intros w; apply consistent_in_byIdent | done].
  intros w Hw Hreq Htop.
  assert (evicted req (topLevelWorkspace (project s)) w) as Hev by (split; congruence).
  destruct Hcons as (Hl & Hc & Hi & _).
  unfold scopes_of. rewrite evicted_deref, decide_True, prune_unrequired by done.
  split_and!; [done.. | | |].
  - unfold in_list. rewrite evicted_workspaces, list_elem_of_filter. tauto.
  - intros [k [Hk Hdel]%evicted_byCwd]. destruct (Hc k w Hk) as [Hkw _].
    by apply (Hdel w).
  - intros [k [Hk Hdel]%evicted_byIdent]. destruct (Hi k w Hk) as [Hkw _].
    by apply (Hdel w).
Qed.

Lemma eviction_removes_unrequired_witness :
  project_consistent demo_state ∧
  let s' := (evict (demo_focus ["A"] false) [demo_A; demo_B] demo_state).2 in
  (∀ w, w ∈ workspaces (project demo_state) → w ∉ [demo_A; demo_B] →
     w ≠ topLevelWorkspace (project demo_state) →
     dependencies (scopes_of s' w) = [] ∧
     devDependencies (scopes_of s' w) = [] ∧
     peerDependencies (scopes_of s' w) = [] ∧
     ¬ in_list s' w ∧ ¬ in_byCwd s' w ∧ ¬ in_byIdent s' w) ∧
  (∀ w, in_list s' w ↔ in_byCwd s' w) ∧
  (∀ w, in_list s' w ↔ in_byIdent s' w) ∧
  project_consistent s'.
Proof.
  assert (project_consistent demo_state) as H
    by (apply (bool_decide_unpack _); vm_compute; exact I).
  split; [exact H |].
  exact (eviction_removes_unrequired (demo_focus ["A"] false) [demo_A; demo_B]
           demo_state H).
Defined.

(** C3.  After the eviction, a required workspace of the project has its
    [dependencies] and [peerDependencies] scopes exactly as before; its
    [devDependencies] scope is empty when production mode is on, and
    exactly as before otherwise. *)
Theorem required_scopes_kept this req s w :
  w ∈ req → w ∈ workspaces (project s) →
  let s' := (evict this req s).2 in
  dependencies (scopes_of s' w) = dependencies (scopes_of s w) ∧
  peerDependencies (scopes_of s' w) = peerDependencies (scopes_of s w) ∧
  devDependencies (scopes_of s' w) =
    if production this then [] else devDependencies (scopes_of s w).
Proof.
  intros Hw Hin s'. subst s'. rewrite evict_run. simpl. unfold scopes_of.
  rewrite evicted_deref, decide_True, prune_required by done.
  by destruct (production this).
Qed.

Lemma required_scopes_kept_witness :
  demo_B ∈ [demo_A; demo_B] ∧ demo_B ∈ workspaces (project demo_state) ∧
  let s' := (evict (demo_focus ["A"] true) [demo_A; demo_B] demo_state).2 in
  dependencies (scopes_of s' demo_B) = dependencies (scopes_of demo_state demo_B) ∧
  peerDependencies (scopes_of s' demo_B) = peerDependencies (scopes_of demo_state demo_B) ∧
  devDependencies (scopes_of s' demo_B) =
    if production (demo_focus ["A"] true) then []
    else devDependencies (scopes_of demo_state demo_B).
Proof.
  assert (demo_B ∈ [demo_A; demo_B]) as H1
    by (apply (bool_decide_unpack _); vm_compute; exact I).
  assert (demo_B ∈ workspaces (project demo_state)) as H2
    by (apply (bool_decide_unpack _); vm_compute; exact I).
  split_and!; [exact H1 | exact H2 |].
  exact (required_scopes_kept (demo_focus ["A"] true) [demo_A; demo_B]
           demo_state demo_B H1 H2).
Defined.

(** C5.  In a consistent project and for every required set, after the
    eviction the top-level workspace is still the project's top-level
    workspace and is still in the ordered list and in both indexes; when it
    is not required, its three dependency scopes are empty. *)
Theorem root_retained this req s :
  project_consistent s →
  let s' := (evict this req s).2 in
  let top := topLevelWorkspace (project s) in
  topLevelWorkspace (project s') = top ∧
  in_list s' top ∧ in_byCwd s' top ∧ in_byIdent s' top ∧
  (top ∉ req →
     dependencies (scopes_of s' top) = [] ∧
     devDependencies (scopes_of s' top) = [] ∧
     peerDependencies (scopes_of s' top) = []).
Proof.
  intros Hcons s' top. subst s' top. rewrite evict_run. simpl.
  pose proof (evicted_consistent this req s Hcons) as Hcons'.
  assert (in_list (evicted_state this req s) (topLevelWorkspace (project s))) as Hin.
  { destruct Hcons' as (_ & _ & _ & Htop). by rewrite evicted_top in Htop. }
  split_and!; [apply evicted_top | done | by apply consistent_in_byCwd
              | by apply consistent_in_byIdent |].
  intros Hreq. destruct Hcons as (_ & _ & _ & Htop).
  unfold scopes_of. by rewrite evicted_deref, decide_True, prune_unrequired by done.
Qed.

Lemma root_retained_witness :
  project_consistent demo_state ∧
  let s' := (evict (demo_focus ["A"] false) [demo_A; demo_B] demo_state).2 in
  let top := topLevelWorkspace (project demo_state) in
  topLevelWorkspace (project s') = top ∧
  in_list s' top ∧ in_byCwd s' top ∧ in_byIdent s' top ∧
  (top ∉ [demo_A; demo_B] →
     dependencies (scopes_of s' top) = [] ∧
     devDependencies (scopes_of s' top) = [] ∧
     peerDependencies (scopes_of s' top) = []).
Proof.
  assert (project_consistent demo_state) as H
    by (apply (bool_decide_unpack _); vm_compute; exact I).
  split; [exact H |].
  exact (root_retained (demo_focus ["A"] false) [demo_A; demo_B] demo_state H).
Defined.

(** C8.  The eviction is idempotent: for every project and required set,
    running the manifest pass and the removal pass again with the same
    required set, on the state that the first run left, ends normally in
    that same state: the same store of manifests, ordered list and
    indexes. *)
Theorem eviction_idempotent this req s :
  evict this req (evict this req s).2 = (Return tt, (evict this req s).2).
Proof. rewrite !evict_run. simpl. by rewrite evicted_state_idemp. Qed.

(** C7.  Seed selection, and its errors before any mutation.  Selecting
    the seed never changes the state.  With [--all] the seed is the
    project's workspace list.  Otherwise, with names on the command line,
    the seed is the workspaces that the names resolve to when they all
    resolve, and the command throws [UnknownWorkspace] for a name that
    does not resolve when there is one.  Otherwise the seed is the
    workspace of the working directory, and the command throws the
    workspace-required error when there is none.  Whenever seed selection
    throws, the whole command ends with that error in the state as it was
    loaded. *)
Theorem seed_selection parseIdent accepts install_routine this workspace s :
  let r := select_required parseIdent this workspace s in
  r.2 = s ∧
  (all this = true → r.1 = Return (Set_new (workspaces (project s)))) ∧
  (all this = false → cmd_workspaces this ≠ [] →
     (∀ ws, Forall2 (named parseIdent s) (cmd_workspaces this) ws →
            r.1 = Return (Set_new ws) ∧ ∀ w, w ∈ Set_new ws ↔ w ∈ ws) ∧
     (Exists (unknown parseIdent s) (cmd_workspaces this) →
      ∃ name, name ∈ cmd_workspaces this ∧ unknown parseIdent s name ∧
              r.1 = Throw (UnknownWorkspace (parseIdent name)))) ∧
  (all this = false → cmd_workspaces this = [] →
     r.1 = match workspace with
           | Some w => Return [w]
           | None => Throw (WorkspaceRequiredError (project_cwd (project s))
                                                   (context_cwd this))
           end) ∧
  (∀ fuel e, r.1 = Throw e →
     execute parseIdent accepts install_routine fuel this workspace s = (Throw e, s)).
Proof.
  intros r. subst r. split_and!.
  - apply select_required_read_only.
  - intros Hall. unfold select_required. by rewrite Hall.
  - intros Hall Hnames. unfold select_required. rewrite Hall.
    destruct (cmd_workspaces this) as [|name names] eqn:Hcmd; [done |]. simpl.
    split.
    + intros ws Hws. rewrite bind_run.
      change (array_map (λ name, getWorkspaceByIdent (parseIdent name)) (name :: names) s)
        with ((getWorkspaceByIdent (parseIdent name) ≫= λ b,
               array_map (λ name, getWorkspaceByIdent (parseIdent name)) names ≫= λ bs,
               mret (b :: bs)) s) in *.
      split; [|apply Set_new_elem].
      pose proof (names_resolved parseIdent s _ _ Hws) as Hrun. simpl in Hrun.
      by rewrite Hrun.
    + intros Hex. destruct (names_unresolved parseIdent s _ Hex) as (bad & Hin & Hbad & Hrun).
      exists bad. split_and!; [done.. |]. rewrite bind_run.
      simpl in Hrun. by rewrite Hrun.
  - intros Hall Hnames. unfold select_required. rewrite Hall, Hnames. simpl.
    by destruct workspace.
  - intros fuel e He. rewrite execute_run.
    destruct (select_required parseIdent this workspace s) as [[seed|e'|] s0];
      simpl in He; by simplify_eq.
Qed.

(** C4.  The calls of a whole run, given fuel for one iterator call per
    possible member of the required set.  When seed selection throws, the
    command ends with that error, which is not an install failure, and
    then nothing was called and the state is as loaded.  When seed
    selection returns a seed, the closure loop returns the required set
    and the install routine is called, once and with [persistProject]
    false, on the evicted project: when it succeeds,
    [persistInstallStateFile] is called once, after it, and the command
    returns the report's exit code; when it fails, the command throws the
    very message of the failure and [persistInstallStateFile] is not
    called.  Nothing else is called, and seed selection does one or the
    other. *)
Theorem install_persistence parseIdent accepts install_routine fuel this workspace s :
  length (workspaces (project s)) + length (cmd_workspaces this) +
    size (workspacesByIdent (project s)) + 1 < fuel →
  let r := execute parseIdent accepts install_routine fuel this workspace s in
  (∃ e,
     select_required parseIdent this workspace s = (Throw e, s) ∧
     r = (Throw e, s) ∧ ∀ message, e ≠ InstallFailure message) ∨
  (∃ seed req,
     select_required parseIdent this workspace s = (Return seed, s) ∧
     closure_loop accepts fuel 0 seed s = (Return req, s) ∧
     let s1 := (evict this req s).2 in
     match install_routine false {| exitCode := 0 |} (objects s1) (project s1) with
     | (None, report, o, p) =>
         r = (Return (exitCode report),
              {| objects := o; project := p;
                 calls := calls s ++ [EvInstall false; EvPersistInstallStateFile] |})
     | (Some message, _, o, p) =>
         r = (Throw (InstallFailure message),
              {| objects := o; project := p; calls := calls s ++ [EvInstall false] |})
     end).
Proof.
  intros Hfuel r. subst r. rewrite execute_run.
  pose proof (select_required_read_only parseIdent this workspace s) as Hsel.
  destruct (select_required parseIdent this workspace s) as [[seed|e|] s0] eqn:Hs;
    simpl in Hsel; subst s0.
  - pose proof (select_required_length _ _ _ _ _ _ Hs) as Hlen.
    destruct (closure_loop_returns accepts s seed fuel) as [req Hc]; [lia |].
    rewrite Hc. right. exists seed, req. split_and!; [done.. |].
    rewrite evict_run. simpl. rewrite install_run.
    by destruct (install_routine _ _ _ _) as [[[[message|] report] o] p].
  - left. exists e. split_and!; [done.. |].
    by eapply select_required_errors.
  - by apply select_required_in_fuel in Hs.
Qed.

Lemma install_persistence_witness :
  length (workspaces (project demo_state)) + length (cmd_workspaces (demo_focus ["A"] false)) +
    size (workspacesByIdent (project demo_state)) + 1 < 11 ∧
  let r := execute demo_parseIdent demo_accepts demo_install 11
             (demo_focus ["A"] false) None demo_state in
  (∃ e,
     select_required demo_parseIdent (demo_focus ["A"] false) None demo_state =
       (Throw e, demo_state) ∧
     r = (Throw e, demo_state) ∧ ∀ message, e ≠ InstallFailure message) ∨
  (∃ seed req,
     select_required demo_parseIdent (demo_focus ["A"] false) None demo_state =
       (Return seed, demo_state) ∧
     closure_loop demo_accepts 11 0 seed demo_state = (Return req, demo_state) ∧
     let s1 := (evict (demo_focus ["A"] false) req demo_state).2 in
     match demo_install false {| exitCode := 0 |} (objects s1) (project s1) with
     | (None, report, o, p) =>
         r = (Return (exitCode report),
              {| objects := o; project := p;
                 calls := calls demo_state ++ [EvInstall false; EvPersistInstallStateFile] |})
     | (Some message, _, o, p) =>
         r = (Throw (InstallFailure message),
              {| objects := o; project := p;
                 calls := calls demo_state ++ [EvInstall false] |})
     end).
Proof.
  assert (length (workspaces (project demo_state)) +
          length (cmd_workspaces (demo_focus ["A"] false)) +
          size (workspacesByIdent (project demo_state)) + 1 < 11) as H
    by (vm_compute; lia).
  split; [exact H |].
  exact (install_persistence demo_parseIdent demo_accepts demo_install 11
           (demo_focus ["A"] false) None demo_state H).
Defined.

(** ** The command on the small project *)

(** Focusing on [A]: [B] is required through the [dependencies] of [A];
    [C], which [A] names only as a peer dependency, is not. *)
Example demo_closure :
  closure_loop demo_accepts 3 0 [demo_A] demo_state =
  (Return [demo_A; demo_B], demo_state).
Proof. vm_compute. reflexivity. Qed.

Example demo_peer_edge :
  peer_edge demo_accepts demo_state demo_A demo_C ∧
  ∀ fuel req s', closure_loop demo_accepts fuel 0 [demo_A] demo_state = (Return req, s') →
                 demo_C ∉ req.
Proof.
  split; [unfold peer_edge; apply (bool_decide_unpack _); vm_compute; exact I |].
  intros fuel req s' Hrun.
  destruct (closure_loop_fuel _ _ _ _ _ _ _ Hrun) as [_ Hall]; [simpl; lia |].
  specialize (Hall 3). rewrite demo_closure in Hall.
  case_decide; [|done]. simplify_eq.
  apply (bool_decide_unpack _). vm_compute. exact I.
Qed.

(** Two members, so two units of fuel do not reach the end of the set. *)
Example demo_closure_short :
  (closure_loop demo_accepts 2 0 [demo_A] demo_state).1 = OutOfFuel.
Proof. vm_compute. reflexivity. Qed.

(** [yarn workspaces focus A]: [C] is evicted and emptied, the root is
    emptied and kept, [A] and [B] are untouched, and the install is
    followed by the persistence of the install state. *)
Example demo_focus_A :
  let r := execute demo_parseIdent demo_accepts demo_install 3
             (demo_focus ["A"] false) None demo_state in
  r.1 = Return 0%Z ∧
  workspaces (project r.2) = [demo_root; demo_A; demo_B] ∧
  map_to_list (workspacesByCwd (project r.2)) ≡ₚ
    [("/", demo_root); ("/a", demo_A); ("/b", demo_B)] ∧
  scopes_of r.2 demo_C = empty_manifest ∧
  scopes_of r.2 demo_A = scopes_of demo_state demo_A ∧
  scopes_of r.2 demo_B = scopes_of demo_state demo_B ∧
  calls r.2 = [EvInstall false; EvPersistInstallStateFile].
Proof.
  vm_compute. split_and!; try reflexivity.
  apply (bool_decide_unpack _). vm_compute. exact I.
Qed.

(** [yarn workspaces focus --all --production]: nothing is evicted, and
    every workspace loses its development dependencies only. *)
Example demo_focus_all_production :
  let this := {| cmd_workspaces := []; json := false; production := true;
                 all := true; context_cwd := "/" |} in
  let r := execute demo_parseIdent demo_accepts demo_install 5 this None demo_state in
  r.1 = Return 0%Z ∧
  workspaces (project r.2) = [demo_root; demo_A; demo_B; demo_C] ∧
  devDependencies (scopes_of r.2 demo_B) = [] ∧
  dependencies (scopes_of r.2 demo_A) = dependencies (scopes_of demo_state demo_A) ∧
  peerDependencies (scopes_of r.2 demo_A) = peerDependencies (scopes_of demo_state demo_A).
Proof. vm_compute. split_and!; reflexivity. Qed.

(** A name that is not a workspace, and a working directory outside every
    workspace: the command throws and the state is as loaded. *)
Example demo_focus_unknown :
  execute demo_parseIdent demo_accepts demo_install 5
    (demo_focus ["A"; "lodash"] false) None demo_state =
  (Throw (UnknownWorkspace (demo_parseIdent "lodash")), demo_state).
Proof. vm_compute. reflexivity. Qed.

Example demo_focus_no_workspace :
  execute demo_parseIdent demo_accepts demo_install 5
    (demo_focus [] false) None demo_state =
  (Throw (WorkspaceRequiredError "/" "/a"), demo_state).
Proof. vm_compute. reflexivity. Qed.

(** A failing install: its message is thrown and the install state is not
    persisted. *)
Example demo_focus_install_fails :
  let r := execute demo_parseIdent demo_accepts
             (λ _ report o p, (Some "YN0001", report, o, p)) 3
             (demo_focus ["A"] false) None demo_state in
  r.1 = Throw (InstallFailure "YN0001") ∧ calls r.2 = [EvInstall false].
Proof. vm_compute. split; reflexivity. Qed.

(** ** Further properties: seed selection *)

Lemma names_resolved_inv parseIdent names : ∀ s ws s',
  array_map (λ name, getWorkspaceByIdent (parseIdent name)) names s = (Return ws, s') →
  Forall2 (named parseIdent s) names ws.
Proof.
  induction names as [|name names IH]; intros s ws s'; simpl.
  - intros [= <- _]. constructor.
  - rewrite bind_run, getWorkspaceByIdent_run.
    destruct (workspacesByIdent (project s) !! identHash (parseIdent name)) as [w|] eqn:Hw;
      [|done].
    rewrite bind_run.
    destruct (array_map _ names s) as [[ws'|e'|] s''] eqn:Hrun; try done.
    intros [= <- _]. constructor; [done | by eapply IH].
Qed.

Lemma named_members parseIdent s names ws w :
  Forall2 (named parseIdent s) names ws →
  w ∈ ws ↔ ∃ name, name ∈ names ∧ named parseIdent s name w.
Proof.
  induction 1 as [|name v names ws Hv _ IH].
  - split; [by intros ?%elem_of_nil | by intros (? & ?%elem_of_nil & _)].
  - rewrite elem_of_cons, IH. split.
    + intros [->|(n & Hn & Hw)]; [exists name; split; [by left | done] |].
      exists n. split; [by right | done].
    + intros (n & [->|Hn]%elem_of_cons & Hw).
      * left. unfold named in *. congruence.
      * right. eauto.
Qed.

(** X1.  The schema rejects exactly the commands that give workspace names
    together with [--all].  For a command that the schema accepts and that
    gives names, [--all] is off and, when seed selection returns, the seed
    holds exactly the workspaces that the names resolve to. *)
Theorem schema_guards_names parseIdent this workspace s :
  (schema this ≠ [] ↔ all this = true ∧ cmd_workspaces this ≠ []) ∧
  (schema this = [] → cmd_workspaces this ≠ [] →
     all this = false ∧
     ∀ seed s', select_required parseIdent this workspace s = (Return seed, s') →
       ∀ w, w ∈ seed ↔ ∃ name, name ∈ cmd_workspaces this ∧ named parseIdent s name w).
Proof.
  assert (schema this ≠ [] ↔ all this = true ∧ cmd_workspaces this ≠ []) as Hschema.
  { unfold schema, array_max.
    destruct (all this), (cmd_workspaces this); simpl;
      (split; [intros H | intros [H1 H2]]; try done; congruence). }
  split; [done |]. intros Hok Hnames.
  assert (all this = false) as Hall.
  { destruct (all this) eqn:Hall; [|done]. exfalso. by apply Hschema. }
  split; [done |]. intros seed s'. unfold select_required. rewrite Hall.
  destruct (cmd_workspaces this) as [|name names] eqn:Hcmd; [done |].
  change (length (name :: names) =? 0) with false. cbv iota. rewrite bind_run.
  destruct (array_map _ (name :: names) s) as [[ws|e'|] s''] eqn:Hrun; try done.
  intros [= <- _] w. rewrite Set_new_elem.
  apply names_resolved_inv in Hrun. by apply named_members.
Qed.

(** X2.  The names are resolved in the order of the command line: when the
    names before [name] all resolve and [name] does not, the command throws
    [UnknownWorkspace] for [name], whatever follows it, and leaves the
    state as loaded. *)
Theorem first_unknown_name_reported parseIdent accepts install_routine fuel
    this workspace s before name after :
  all this = false →
  cmd_workspaces this = before ++ name :: after →
  Forall (λ n, is_Some (workspacesByIdent (project s) !! identHash (parseIdent n))) before →
  unknown parseIdent s name →
  execute parseIdent accepts install_routine fuel this workspace s =
  (Throw (UnknownWorkspace (parseIdent name)), s).
Proof.
  intros Hall Hcmd Hbefore Hname.
  assert (array_map (λ name, getWorkspaceByIdent (parseIdent name)) (before ++ name :: after) s
          = (Throw (UnknownWorkspace (parseIdent name)), s)) as Hrun.
  { clear Hcmd. induction Hbefore as [|n before [w Hw] _ IH]; simpl.
    - rewrite bind_run, getWorkspaceByIdent_run. unfold unknown in Hname.
      by rewrite Hname.
    - rewrite bind_run, getWorkspaceByIdent_run, Hw, bind_run, IH. reflexivity. }
  rewrite execute_run. unfold select_required. rewrite Hall, Hcmd.
  assert ((length (before ++ name :: after) =? 0) = false) as ->.
  { apply Nat.eqb_neq. rewrite length_app. simpl. lia. }
  by rewrite bind_run, Hrun.
Qed.

Lemma first_unknown_name_reported_witness :
  all (demo_focus ["A"; "lodash"; "zzz"] false) = false ∧
  cmd_workspaces (demo_focus ["A"; "lodash"; "zzz"] false) = ["A"] ++ "lodash" :: ["zzz"] ∧
  Forall (λ n, is_Some (workspacesByIdent (project demo_state)
                          !! identHash (demo_parseIdent n))) ["A"] ∧
  unknown demo_parseIdent demo_state "lodash" ∧
  execute demo_parseIdent demo_accepts demo_install 5
    (demo_focus ["A"; "lodash"; "zzz"] false) None demo_state =
  (Throw (UnknownWorkspace (demo_parseIdent "lodash")), demo_state).
Proof.
  assert (Forall (λ n, is_Some (workspacesByIdent (project demo_state)
                                  !! identHash (demo_parseIdent n))) ["A"]) as H3
    by (apply (bool_decide_unpack _); vm_compute; exact I).
  assert (unknown demo_parseIdent demo_state "lodash") as H4
    by (vm_compute; reflexivity).
  split_and!; [reflexivity | reflexivity | exact H3 | exact H4 |].
  exact (first_unknown_name_reported demo_parseIdent demo_accepts demo_install 5
           (demo_focus ["A"; "lodash"; "zzz"] false) None demo_state
           ["A"] "lodash" ["zzz"] eq_refl eq_refl H3 H4).
Defined.

(** X3.  In a consistent project, and with a working-directory workspace
    that is one of the project's, the seed that selection returns is never
    empty, has no workspace twice and holds only workspaces of the
    project's list. *)
Theorem seed_well_formed parseIdent this workspace s seed s' :
  project_consistent s →
  Forall (λ w, w ∈ workspaces (project s)) (option_list workspace) →
  select_required parseIdent this workspace s = (Return seed, s') →
  seed ≠ [] ∧ NoDup seed ∧ ∀ w, w ∈ seed → w ∈ workspaces (project s).
Proof.
  intros Hcons Hws. unfold select_required.
  assert (∀ l : list Workspace, l ≠ [] → Set_new l ≠ []) as Hne.
  { intros [|x l] Hl Hnil; [done |].
    assert (x ∈ Set_new (x :: l)) as Hx by (apply Set_new_elem; by left).
    rewrite Hnil in Hx. by apply elem_of_nil in Hx. }
  destruct (all this).
  { rewrite bind_run. simpl. intros [= <- _]. split_and!.
    - apply Hne. destruct Hcons as (_ & _ & _ & Htop).
      intros Hnil. rewrite Hnil in Htop. by apply elem_of_nil in Htop.
    - apply Set_new_NoDup.
    - intros w. by rewrite Set_new_elem. }
  destruct (cmd_workspaces this) as [|name names] eqn:Hcmd.
  { simpl. destruct workspace as [w|]; [|done]. intros [= <- _].
    simpl in Hws. rewrite Forall_singleton in Hws.
    split_and!; [done | apply Set_new_NoDup |].
    intros v. rewrite Set_new_elem. by intros ->%list_elem_of_singleton. }
  change (length (name :: names) =? 0) with false. cbv iota. rewrite bind_run.
  destruct (array_map _ (name :: names) s) as [[ws|e'|] s''] eqn:Hrun; try done.
  intros [= <- _]. apply names_resolved_inv in Hrun.
  split_and!; [| apply Set_new_NoDup |].
  - apply Hne. apply Forall2_length in Hrun. by destruct ws.
  - intros w. rewrite Set_new_elem, (named_members _ _ _ _ _ Hrun).
    intros (n & _ & Hn). apply (consistent_in_byIdent s w Hcons). by eexists.
Qed.

Lemma seed_well_formed_witness :
  project_consistent demo_state ∧
  Forall (λ w, w ∈ workspaces (project demo_state)) (option_list (Some demo_B)) ∧
  select_required demo_parseIdent (demo_focus [] false) (Some demo_B) demo_state =
    (Return [demo_B], demo_state) ∧
  [demo_B] ≠ [] ∧ NoDup [demo_B] ∧ ∀ w, w ∈ [demo_B] → w ∈ workspaces (project demo_state).
Proof.
  assert (project_consistent demo_state) as H1
    by (apply (bool_decide_unpack _); vm_compute; exact I).
  assert (Forall (λ w, w ∈ workspaces (project demo_state)) (option_list (Some demo_B))) as H2
    by (apply (bool_decide_unpack _); vm_compute; exact I).
  assert (select_required demo_parseIdent (demo_focus [] false) (Some demo_B) demo_state =
            (Return [demo_B], demo_state)) as H3 by reflexivity.
  split; [exact H1 |]. split; [exact H2 |]. split; [exact H3 |].
  exact (seed_well_formed demo_parseIdent (demo_focus [] false) (Some demo_B)
           demo_state [demo_B] demo_state H1 H2 H3).
Defined.

(** ** Further properties: the closure loop *)

Lemma add_all_absorbed req l : (∀ x, x ∈ l → x ∈ req) → add_all req l = req.
Proof.
  unfold add_all. induction l as [|a l IH]; intros Hl; simpl; [done |].
  unfold Set_add at 2, Set_has. rewrite bool_decide_eq_true_2 by (apply Hl; by left).
  apply IH. intros x Hx. apply Hl. by right.
Qed.

Lemma closure_loop_closed_fix accepts s req :
  hard_closed accepts s req →
  ∀ fuel i, i ≤ length req → length req < fuel + i →
    closure_loop accepts fuel i req s = (Return req, s).
Proof.
  intros Hclosed. induction fuel as [|fuel IH]; intros i Hi Hfuel; [lia |].
  rewrite closure_loop_step. destruct (req !! i) as [w|] eqn:Hw; [|done].
  pose proof (lookup_lt_Some _ _ _ Hw) as Hlt.
  rewrite add_all_absorbed; [apply IH; lia |].
  intros x Hx. apply (Hclosed w x); [by eapply list_elem_of_lookup_2 |].
  by apply hard_edge_targets.
Qed.

Lemma closure_loop_seed_in accepts fuel seed s req s' :
  closure_loop accepts fuel 0 seed s = (Return req, s') → ∀ w, w ∈ seed → w ∈ req.
Proof.
  intros Hrun w Hw. pose proof (closure_loop_prefix _ _ _ _ _ _ _ Hrun) as [extra ->].
  apply elem_of_app. by left.
Qed.

Lemma hard_reachable_mono accepts s seed1 seed2 w :
  (∀ v, v ∈ seed1 → v ∈ seed2) →
  hard_reachable accepts s seed1 w → hard_reachable accepts s seed2 w.
Proof. intros Hsub (v & Hv & Hpath). exists v. auto. Qed.

(** X4.  The closure is monotone in the seed: from a seed whose members
    all belong to a second seed, the loop returns a required set whose
    members all belong to the set returned from the second seed.  So two
    seeds with the same members, in whatever order and however often
    repeated, give required sets with the same members. *)
Theorem closure_monotone accepts s seed1 seed2 fuel1 fuel2 :
  length seed1 + size (workspacesByIdent (project s)) < fuel1 →
  length seed2 + size (workspacesByIdent (project s)) < fuel2 →
  (∀ w, w ∈ seed1 → w ∈ seed2) →
  ∃ req1 req2,
    closure_loop accepts fuel1 0 seed1 s = (Return req1, s) ∧
    closure_loop accepts fuel2 0 seed2 s = (Return req2, s) ∧
    (∀ w, w ∈ req1 → w ∈ req2) ∧
    ((∀ w, w ∈ seed2 → w ∈ seed1) → ∀ w, w ∈ req1 ↔ w ∈ req2).
Proof.
  intros Hf1 Hf2 Hsub.
  destruct (closure_loop_returns accepts s seed1 fuel1 Hf1) as [req1 Hrun1].
  destruct (closure_loop_returns accepts s seed2 fuel2 Hf2) as [req2 Hrun2].
  assert (∀ seedA seedB fuelA fuelB reqA reqB,
            closure_loop accepts fuelA 0 seedA s = (Return reqA, s) →
            closure_loop accepts fuelB 0 seedB s = (Return reqB, s) →
            (∀ w, w ∈ seedA → w ∈ seedB) → ∀ w, w ∈ reqA → w ∈ reqB) as Hmono.
  { intros seedA seedB fuelA fuelB reqA reqB HrA HrB HAB w Hw.
    apply (hard_closed_reachable accepts s seedB).
    - by eapply closure_loop_seed_in.
    - apply (closure_loop_closed _ _ _ _ _ _ _ HrB), scanned_0.
    - apply (hard_reachable_mono _ _ seedA); [done |].
      apply (closure_loop_reachable _ seedA _ _ _ _ _ _ HrA); [|done].
      intros v Hv. exists v. split; [done | apply rtc_refl]. }
  exists req1, req2. split_and!; [done | done | by eapply Hmono |].
  intros Hsub' w. split; by eapply Hmono.
Qed.

Lemma closure_monotone_witness :
  length [demo_B] + size (workspacesByIdent (project demo_state)) < 6 ∧
  length [demo_C; demo_B] + size (workspacesByIdent (project demo_state)) < 7 ∧
  (∀ w, w ∈ [demo_B] → w ∈ [demo_C; demo_B]) ∧
  ∃ req1 req2,
    closure_loop demo_accepts 6 0 [demo_B] demo_state = (Return req1, demo_state) ∧
    closure_loop demo_accepts 7 0 [demo_C; demo_B] demo_state = (Return req2, demo_state) ∧
    (∀ w, w ∈ req1 → w ∈ req2) ∧
    ((∀ w, w ∈ [demo_C; demo_B] → w ∈ [demo_B]) → ∀ w, w ∈ req1 ↔ w ∈ req2).
Proof.
  assert (length [demo_B] + size (workspacesByIdent (project demo_state)) < 6) as H1
    by (vm_compute; lia).
  assert (length [demo_C; demo_B] + size (workspacesByIdent (project demo_state)) < 7) as H2
    by (vm_compute; lia).
  assert (∀ w, w ∈ [demo_B] → w ∈ [demo_C; demo_B]) as H3
    by (intros w Hw; by right).
  split; [exact H1 |]. split; [exact H2 |]. split; [exact H3 |].
  exact (closure_monotone demo_accepts demo_state [demo_B] [demo_C; demo_B] 6 7 H1 H2 H3).
Defined.

(** X5.  The required set is a fixed point of the loop: started again from
    the set it returned, with the same fuel, the loop returns that very
    set, in the same order. *)
Theorem closure_fixpoint accepts s seed fuel :
  length seed + size (workspacesByIdent (project s)) < fuel →
  ∃ req, closure_loop accepts fuel 0 seed s = (Return req, s) ∧
         closure_loop accepts fuel 0 req s = (Return req, s).
Proof.
  intros Hfuel. destruct (closure_loop_returns accepts s seed fuel Hfuel) as [req Hrun].
  exists req. split; [done |].
  destruct (closure_loop_fuel _ _ _ _ _ _ _ Hrun) as [Hlen _]; [lia |].
  apply closure_loop_closed_fix; [| lia | lia].
  apply (closure_loop_closed _ _ _ _ _ _ _ Hrun), scanned_0.
Qed.

Lemma closure_fixpoint_witness :
  length [demo_C] + size (workspacesByIdent (project demo_state)) < 6 ∧
  ∃ req, closure_loop demo_accepts 6 0 [demo_C] demo_state = (Return req, demo_state) ∧
         closure_loop demo_accepts 6 0 req demo_state = (Return req, demo_state).
Proof.
  assert (length [demo_C] + size (workspacesByIdent (project demo_state)) < 6) as H
    by (vm_compute; lia).
  split; [exact H |].
  exact (closure_fixpoint demo_accepts demo_state [demo_C] 6 H).
Defined.

(** ** Further properties: the eviction *)

Lemma kept_iff req top w : ¬ evicted req top w ↔ w ∈ req ∨ w = top.
Proof.
  unfold evicted. destruct (decide (w ∈ req)), (decide (top = w)); intuition congruence.
Qed.

Lemma evicted_project this req s :
  project (evicted_state this req s) =
  foldl (λ p e, remove_one (deref s e) e p) (project s)
        (filter (evicted req (topLevelWorkspace (project s))) (workspaces (project s))).
Proof.
  unfold evicted_state. simpl.
  generalize (filter (evicted req (topLevelWorkspace (project s))) (workspaces (project s))).
  intros es. generalize (project s).
  induction es as [|e es IH]; intros p; simpl; [done |].
  rewrite IH. unfold remove_one.
  by rewrite deref_pruned_cwd, deref_pruned_locator.
Qed.

Lemma remove_fold_project_cwd (O : Workspace → WorkspaceObj) es : ∀ p,
  project_cwd (foldl (λ p e, remove_one (O e) e p) p es) = project_cwd p.
Proof. induction es as [|e es IH]; intros p; simpl; [done | by rewrite IH]. Qed.

(** X6.  The ordered list after the eviction is the list before it with
    exactly the workspaces that are neither required nor the top-level
    workspace taken out: the others stay, in their order and as often as
    they occurred, whatever the state of the project. *)
Theorem eviction_list_exact this req s :
  workspaces (project (evict this req s).2) =
  filter (λ w, w ∈ req ∨ w = topLevelWorkspace (project s)) (workspaces (project s)).
Proof.
  rewrite evict_run. cbn [snd]. rewrite evicted_workspaces.
  apply list_filter_iff. intros w. apply kept_iff.
Qed.

(** X7.  The removal step on a workspace that is not in the ordered list
    takes the last workspace out of the list instead: [indexOf] answers
    [-1], and [splice(-1, 1)] removes the last element. *)
Theorem remove_step_absent e s :
  e ∉ workspaces (project s) →
  workspaces (project (remove_step e s).2) =
  take (length (workspaces (project s)) - 1) (workspaces (project s)).
Proof.
  intros He. rewrite remove_step_run. simpl.
  assert (indexOf (workspaces (project s)) e = (-1)%Z) as ->.
  { unfold indexOf.
    assert (list_find (λ x, x = e) (workspaces (project s)) = None) as ->; [|done].
    apply list_find_None, Forall_forall. by intros x Hx ->. }
  unfold splice1. simpl.
  rewrite delete_take_drop, drop_ge by lia. rewrite app_nil_r.
  f_equal. lia.
Qed.

Lemma remove_step_absent_witness :
  (demo_C ∉ [demo_root; demo_A; demo_B]) ∧
  let s := set_project (set_workspaces (λ _, [demo_root; demo_A; demo_B])) demo_state in
  workspaces (project (remove_step demo_C s).2) =
  take (length (workspaces (project s)) - 1) (workspaces (project s)).
Proof.
  assert (demo_C ∉ [demo_root; demo_A; demo_B]) as H
    by (apply (bool_decide_unpack _); vm_compute; exact I).
  split; [exact H |].
  exact (remove_step_absent demo_C
           (set_project (set_workspaces (λ _, [demo_root; demo_A; demo_B])) demo_state) H).
Defined.

(** X8.  What the eviction never touches: the call log, the project's own
    path and its top-level workspace; the path and the locator of every
    workspace object; whether a reference has an object in the store; and
    the whole object of every workspace that is not in the ordered list. *)
Theorem eviction_frame this req s :
  let s' := (evict this req s).2 in
  calls s' = calls s ∧
  project_cwd (project s') = project_cwd (project s) ∧
  topLevelWorkspace (project s') = topLevelWorkspace (project s) ∧
  (∀ w, cwd (deref s' w) = cwd (deref s w) ∧
        locator (deref s' w) = locator (deref s w) ∧
        (is_Some (objects s' !! w) ↔ is_Some (objects s !! w))) ∧
  (∀ w, w ∉ workspaces (project s) → objects s' !! w = objects s !! w).
Proof.
  intros s'. subst s'. rewrite evict_run. cbn [snd]. split_and!.
  - reflexivity.
  - by rewrite evicted_project, remove_fold_project_cwd.
  - apply evicted_top.
  - intros w. split_and!; [apply evicted_cwd | apply evicted_locator |].
    unfold evicted_state, pruned_state. simpl. rewrite lookup_pruned.
    case_decide; [|done]. by rewrite fmap_is_Some.
  - intros w Hw. unfold evicted_state, pruned_state. simpl.
    by rewrite lookup_pruned, decide_False.
Qed.

(** X9.  The two indexes only lose entries in the eviction, and the
    entries they lose are those filed under the path, respectively the
    identity, of a workspace of the list that is neither required nor the
    top-level workspace, whichever workspace the entry holds. *)
Theorem eviction_indexes_shrink this req s :
  let s' := (evict this req s).2 in
  let gone e :=
    e ∈ workspaces (project s) ∧ (e ∉ req) ∧ e ≠ topLevelWorkspace (project s) in
  workspacesByCwd (project s') ⊆ workspacesByCwd (project s) ∧
  workspacesByIdent (project s') ⊆ workspacesByIdent (project s) ∧
  (∀ k w, workspacesByCwd (project s') !! k = Some w ↔
          workspacesByCwd (project s) !! k = Some w ∧
          ∀ e, gone e → cwd (deref s e) ≠ k) ∧
  (∀ k w, workspacesByIdent (project s') !! k = Some w ↔
          workspacesByIdent (project s) !! k = Some w ∧
          ∀ e, gone e → locator_identHash (locator (deref s e)) ≠ k).
Proof.
  intros s' gone. subst s' gone. rewrite evict_run. cbn [snd].
  assert (∀ e, (e ∈ workspaces (project s) ∧ (e ∉ req) ∧ e ≠ topLevelWorkspace (project s)) ↔
               (e ∈ workspaces (project s) ∧ evicted req (topLevelWorkspace (project s)) e))
    as Hgone by (unfold evicted; intros e; intuition congruence).
  split_and!.
  - apply map_subseteq_spec. by intros k w [? _]%evicted_byCwd.
  - apply map_subseteq_spec. by intros k w [? _]%evicted_byIdent.
  - intros k w. rewrite evicted_byCwd. split; intros [Hk Hdel]; (split; [done |]).
    + intros e [He Hev]%Hgone. by apply Hdel.
    + intros e He Hev. apply Hdel, Hgone. by split.
  - intros k w. rewrite evicted_byIdent. split; intros [Hk Hdel]; (split; [done |]).
    + intros e [He Hev]%Hgone. by apply Hdel.
    + intros e He Hev. apply Hdel, Hgone. by split.
Qed.

Lemma state_eq (a b : State) :
  objects a = objects b → project a = project b → calls a = calls b → a = b.
Proof. destruct a, b. simpl. by intros -> -> ->. Qed.

Lemma objects_evicted this req s w :
  objects (evicted_state this req s) !! w =
  if decide (w ∈ workspaces (project s)) then prune this req w <$> objects s !! w
  else objects s !! w.
Proof. unfold evicted_state, pruned_state. simpl. apply lookup_pruned. Qed.

Lemma filter_none (P : Workspace → Prop) `{∀ x, Decision (P x)} l :
  (∀ x, x ∈ l → ¬ P x) → filter P l = [].
Proof.
  induction l as [|a l IH]; intros Hl; [done |].
  rewrite filter_cons_False by (apply Hl; by left).
  apply IH. intros x Hx. apply Hl. by right.
Qed.

Lemma evicted_project_again this1 this2 req s :
  project (evicted_state this2 req (evicted_state this1 req s)) =
  project (evicted_state this1 req s).
Proof.
  rewrite (evicted_project this2), evicted_top, evicted_workspaces.
  by rewrite evicted_filter_nil.
Qed.

Lemma prune_compose this1 this2 this3 req w o :
  production this3 = production this1 || production this2 →
  prune this2 req w (prune this1 req w o) = prune this3 req w o.
Proof.
  unfold prune. intros ->.
  by destruct (Set_has req w), (production this1), (production this2).
Qed.

Lemma evicted_in_list this req s w :
  w ∈ workspaces (project (evicted_state this req s)) ↔
  w ∈ workspaces (project s) ∧ (w ∈ req ∨ w = topLevelWorkspace (project s)).
Proof. rewrite evicted_workspaces, list_elem_of_filter, kept_iff. tauto. Qed.

Lemma evicted_byIdent_required this req s k w :
  project_consistent s → w ∈ req →
  workspacesByIdent (project s) !! k = Some w →
  workspacesByIdent (project (evicted_state this req s)) !! k = Some w ∧
  w ∈ workspaces (project (evicted_state this req s)).
Proof.
  intros (Hl & _ & Hi & _) Hw Hk. rewrite Forall_forall in Hl.
  destruct (Hi k w Hk) as [_ Hin]. split.
  - apply evicted_byIdent. split; [done |].
    intros e He [Hev _] Heq. destruct (Hl e He) as [_ Hei]. congruence.
  - apply evicted_in_list. auto.
Qed.

(** X10.  In a consistent project, a required workspace of the list
    survives the eviction: it is still in the ordered list, and both
    indexes still hold it under its own path and its own identity. *)
Theorem required_kept this req s w :
  project_consistent s → w ∈ req → w ∈ workspaces (project s) →
  let s' := (evict this req s).2 in
  w ∈ workspaces (project s') ∧
  workspacesByCwd (project s') !! cwd (deref s' w) = Some w ∧
  workspacesByIdent (project s') !! locator_identHash (locator (deref s' w)) = Some w.
Proof.
  intros Hcons Hreq Hw s'. subst s'. rewrite evict_run. cbn [snd].
  assert (w ∈ workspaces (project (evicted_state this req s))) as Hin
    by (apply evicted_in_list; auto).
  destruct (evicted_consistent this req s Hcons) as (Hl & _).
  rewrite Forall_forall in Hl. destruct (Hl w Hin). done.
Qed.

Lemma required_kept_witness :
  project_consistent demo_state ∧ demo_B ∈ [demo_A; demo_B] ∧
  demo_B ∈ workspaces (project demo_state) ∧
  let s' := (evict (demo_focus ["A"] true) [demo_A; demo_B] demo_state).2 in
  demo_B ∈ workspaces (project s') ∧
  workspacesByCwd (project s') !! cwd (deref s' demo_B) = Some demo_B ∧
  workspacesByIdent (project s') !! locator_identHash (locator (deref s' demo_B)) = Some demo_B.
Proof.
  assert (project_consistent demo_state) as H1
    by (apply (bool_decide_unpack _); vm_compute; exact I).
  assert (demo_B ∈ [demo_A; demo_B]) as H2
    by (apply (bool_decide_unpack _); vm_compute; exact I).
  assert (demo_B ∈ workspaces (project demo_state)) as H3
    by (apply (bool_decide_unpack _); vm_compute; exact I).
  split; [exact H1 |]. split; [exact H2 |]. split; [exact H3 |].
  exact (required_kept (demo_focus ["A"] true) [demo_A; demo_B] demo_state demo_B H1 H2 H3).
Defined.

(** X11.  The project object after the eviction (ordered list, both
    indexes, top-level workspace) does not depend on the command's flags:
    [--production] changes manifests only, never which workspaces are
    removed. *)
Theorem eviction_structure_flag_free this this' req s :
  project (evict this req s).2 = project (evict this' req s).2.
Proof. rewrite !evict_run. cbn [snd]. by rewrite !evicted_project. Qed.

(** X12.  Evictions with the same required set compose: a second eviction
    on the state left by a first one ends in the state of a single
    eviction that is in production mode when either of the two is.  In
    particular a production eviction after a plain one is a production
    eviction, and a plain one after a production one changes nothing. *)
Theorem eviction_compose this1 this2 this3 req s :
  production this3 = production this1 || production this2 →
  evict this2 req (evict this1 req s).2 = (Return tt, (evict this3 req s).2).
Proof.
  intros Hprod. rewrite !evict_run. cbn [snd]. f_equal. apply state_eq.
  - apply map_eq. intros w. rewrite !objects_evicted.
    destruct (decide (w ∈ workspaces (project s))) as [Hw|Hw].
    + case_decide as Hw'.
      * rewrite <- option_fmap_compose. apply option_fmap_ext. intros o.
        by apply prune_compose.
      * apply option_fmap_ext. intros o.
        assert (w ∉ req) as Hreq by (intros ?; apply Hw', evicted_in_list; auto).
        unfold prune, Set_has. by rewrite !bool_decide_eq_false_2.
    + rewrite decide_False; [done |]. by intros [? _]%evicted_in_list.
  - by rewrite evicted_project_again, !evicted_project.
  - reflexivity.
Qed.

Lemma eviction_compose_witness :
  production (demo_focus ["A"] true) =
    production (demo_focus ["A"] false) || production (demo_focus ["A"] true) ∧
  evict (demo_focus ["A"] true) [demo_A; demo_B]
    (evict (demo_focus ["A"] false) [demo_A; demo_B] demo_state).2 =
  (Return tt, (evict (demo_focus ["A"] true) [demo_A; demo_B] demo_state).2).
Proof.
  split; [reflexivity |].
  exact (eviction_compose (demo_focus ["A"] false) (demo_focus ["A"] true)
           (demo_focus ["A"] true) [demo_A; demo_B] demo_state eq_refl).
Defined.

Lemma eviction_all_required_identity_aux this req s :
  production this = false →
  (∀ w, w ∈ workspaces (project s) → w ∈ req) →
  evicted_state this req s = s.
Proof.
  intros Hprod Hall. apply state_eq.
  - apply map_eq. intros w. rewrite objects_evicted. case_decide as Hw; [|done].
    rewrite <- (option_fmap_id (objects s !! w)) at 2.
    apply option_fmap_ext. intros o. unfold prune, Set_has.
    by rewrite bool_decide_eq_true_2, Hprod by auto.
  - rewrite evicted_project, filter_none; [done |].
    intros w Hw [Hreq _]. auto.
  - reflexivity.
Qed.

(** X13.  When production mode is off and every workspace of the ordered
    list is required, the eviction changes nothing at all. *)
Theorem eviction_all_required_identity this req s :
  production this = false →
  (∀ w, w ∈ workspaces (project s) → w ∈ req) →
  evict this req s = (Return tt, s).
Proof.
  intros Hprod Hall. rewrite evict_run. f_equal.
  by apply eviction_all_required_identity_aux.
Qed.

Lemma eviction_all_required_identity_witness :
  production (demo_focus [] false) = false ∧
  (∀ w, w ∈ workspaces (project demo_state) → w ∈ [demo_C; demo_root; demo_A; demo_B]) ∧
  evict (demo_focus [] false) [demo_C; demo_root; demo_A; demo_B] demo_state =
  (Return tt, demo_state).
Proof.
  assert (∀ w, w ∈ workspaces (project demo_state) →
               w ∈ [demo_C; demo_root; demo_A; demo_B]) as H.
  { apply Forall_forall. apply (bool_decide_unpack _). vm_compute. exact I. }
  split; [reflexivity |]. split; [exact H |].
  exact (eviction_all_required_identity (demo_focus [] false)
           [demo_C; demo_root; demo_A; demo_B] demo_state eq_refl H).
Defined.

(** ** Further properties: the pruned project and the whole command *)

Lemma run_install_run install_routine s :
  match StreamReport_start (install_callback install_routine) s with
  | (Return report, s') => (Return (exitCode report), s')
  | (Throw e, s') => (Throw e, s')
  | (OutOfFuel, s') => (@OutOfFuel Z, s')
  end = run_install install_routine s.
Proof.
  unfold run_install. rewrite bind_run.
  by destruct (StreamReport_start _ s) as [[report|e|] s'].
Qed.

Lemma scope_after_prune this req w o ty d :
  d ∈ (getForScope (manifest (prune this req w o)) ty).*2 →
  w ∈ req ∧ d ∈ (getForScope (manifest o) ty).*2.
Proof.
  unfold prune, Set_has. case_bool_decide as Hreq.
  - destruct (production this), ty; simpl; try done; by intros ?%elem_of_nil.
  - destruct ty; simpl; by intros ?%elem_of_nil.
Qed.

(** X14.  The pruned project has no dangling workspace dependency.  In a
    consistent project, after the eviction for the set that the closure
    loop returned, every descriptor left in a hard scope of a workspace of
    the list was there before, resolves exactly as it did before, and,
    when it resolves to a workspace, that workspace is still in the
    list. *)
Theorem pruned_graph_resolves accepts this fuel seed s req s0 :
  project_consistent s →
  closure_loop accepts fuel 0 seed s = (Return req, s0) →
  let s' := (evict this req s).2 in
  ∀ w ty d, w ∈ workspaces (project s') → ty ∈ hardDependencies →
    d ∈ (getForScope (scopes_of s' w) ty).*2 →
    d ∈ (getForScope (scopes_of s w) ty).*2 ∧
    resolve accepts s' d = resolve accepts s d ∧
    ∀ w', resolve accepts s d = Some w' → w' ∈ workspaces (project s').
Proof.
  intros Hcons Hrun s'. subst s'. rewrite evict_run. cbn [snd].
  intros w ty d [Hw _]%evicted_in_list Hty. unfold scopes_of.
  rewrite evicted_deref, decide_True by done.
  intros [Hreq Hd]%scope_after_prune. split; [done |].
  pose proof (closure_loop_closed _ _ _ _ _ _ _ Hrun (scanned_0 _ _ _)) as Hclosed.
  assert (∀ w', resolve accepts s d = Some w' → w' ∈ req) as Htarget.
  { intros w' Hres. apply (Hclosed w w' Hreq). exists ty. split; [done |].
    unfold scope_targets. apply list_elem_of_omap. eauto. }
  unfold resolve in *.
  destruct (workspacesByIdent (project s) !! descriptor_identHash d) as [v|] eqn:Hk.
  - destruct (accepts v (range d)) eqn:Hacc.
    + destruct (evicted_byIdent_required this req s _ v Hcons (Htarget v eq_refl) Hk)
        as [Hk' Hin].
      rewrite Hk', Hacc. split; [done |]. by intros w' [= <-].
    + split; [|done].
      destruct (workspacesByIdent (project (evicted_state this req s))
                  !! descriptor_identHash d) as [v'|] eqn:Hk'; [|done].
      apply evicted_byIdent in Hk' as [Hk' _]. simplify_eq. by rewrite Hacc.
  - split; [|done].
    destruct (workspacesByIdent (project (evicted_state this req s))
                !! descriptor_identHash d) as [v'|] eqn:Hk'; [|done].
    apply evicted_byIdent in Hk' as [Hk' _]. congruence.
Qed.

Lemma pruned_graph_resolves_witness :
  project_consistent demo_state ∧
  closure_loop demo_accepts 3 0 [demo_A] demo_state = (Return [demo_A; demo_B], demo_state) ∧
  let s' := (evict (demo_focus ["A"] false) [demo_A; demo_B] demo_state).2 in
  ∀ w ty d, w ∈ workspaces (project s') → ty ∈ hardDependencies →
    d ∈ (getForScope (scopes_of s' w) ty).*2 →
    d ∈ (getForScope (scopes_of demo_state w) ty).*2 ∧
    resolve demo_accepts s' d = resolve demo_accepts demo_state d ∧
    ∀ w', resolve demo_accepts demo_state d = Some w' → w' ∈ workspaces (project s').
Proof.
  assert (project_consistent demo_state) as H1
    by (apply (bool_decide_unpack _); vm_compute; exact I).
  assert (closure_loop demo_accepts 3 0 [demo_A] demo_state =
            (Return [demo_A; demo_B], demo_state)) as H2
    by (vm_compute; reflexivity).
  split; [exact H1 |]. split; [exact H2 |].
  exact (pruned_graph_resolves demo_accepts (demo_focus ["A"] false) 3 [demo_A]
           demo_state [demo_A; demo_B] demo_state H1 H2).
Defined.

(** X15.  What the install is given.  In a consistent project, when seed
    selection returns a seed, the command ends as the install does on the
    pruned project; that project is consistent again, and its ordered list
    is the original list, in its order, restricted to the workspaces that
    hard edges reach from the seed and to the top-level workspace. *)
Theorem focus_install_sees parseIdent accepts install_routine fuel this workspace s seed :
  project_consistent s →
  select_required parseIdent this workspace s = (Return seed, s) →
  length seed + size (workspacesByIdent (project s)) < fuel →
  ∃ req, closure_loop accepts fuel 0 seed s = (Return req, s) ∧
    let s1 := (evict this req s).2 in
    execute parseIdent accepts install_routine fuel this workspace s =
      run_install install_routine s1 ∧
    project_consistent s1 ∧
    workspaces (project s1) `sublist_of` workspaces (project s) ∧
    ∀ w, w ∈ workspaces (project s1) ↔
         w ∈ workspaces (project s) ∧
         (hard_reachable accepts s seed w ∨ w = topLevelWorkspace (project s)).
Proof.
  intros Hcons Hsel Hfuel.
  destruct (closure_loop_returns accepts s seed fuel Hfuel) as [req Hrun].
  exists req. split; [done |]. intros s1. subst s1.
  rewrite execute_run, Hsel, Hrun, run_install_run, evict_run. cbn [snd].
  split_and!; [done | by apply evicted_consistent | |].
  - rewrite evicted_workspaces. apply sublist_filter.
  - intros w. rewrite evicted_in_list.
    assert (w ∈ req ↔ hard_reachable accepts s seed w) as ->; [|done].
    split.
    + apply (closure_loop_reachable _ seed _ _ _ _ _ _ Hrun).
      intros v Hv. exists v. split; [done | apply rtc_refl].
    + apply hard_closed_reachable; [by eapply closure_loop_seed_in |].
      apply (closure_loop_closed _ _ _ _ _ _ _ Hrun), scanned_0.
Qed.

Lemma focus_install_sees_witness :
  project_consistent demo_state ∧
  select_required demo_parseIdent (demo_focus ["A"] true) None demo_state =
    (Return [demo_A], demo_state) ∧
  length [demo_A] + size (workspacesByIdent (project demo_state)) < 6 ∧
  ∃ req, closure_loop demo_accepts 6 0 [demo_A] demo_state = (Return req, demo_state) ∧
    let s1 := (evict (demo_focus ["A"] true) req demo_state).2 in
    execute demo_parseIdent demo_accepts demo_install 6 (demo_focus ["A"] true) None
      demo_state = run_install demo_install s1 ∧
    project_consistent s1 ∧
    workspaces (project s1) `sublist_of` workspaces (project demo_state) ∧
    ∀ w, w ∈ workspaces (project s1) ↔
         w ∈ workspaces (project demo_state) ∧
         (hard_reachable demo_accepts demo_state [demo_A] w ∨
          w = topLevelWorkspace (project demo_state)).
Proof.
  assert (project_consistent demo_state) as H1
    by (apply (bool_decide_unpack _); vm_compute; exact I).
  assert (select_required demo_parseIdent (demo_focus ["A"] true) None demo_state =
            (Return [demo_A], demo_state)) as H2 by (vm_compute; reflexivity).
  assert (length [demo_A] + size (workspacesByIdent (project demo_state)) < 6) as H3
    by (vm_compute; lia).
  split; [exact H1 |]. split; [exact H2 |]. split; [exact H3 |].
  exact (focus_install_sees demo_parseIdent demo_accepts demo_install 6
           (demo_focus ["A"] true) None demo_state [demo_A] H1 H2 H3).
Defined.

(** X16.  [--all] without [--production] is a plain install that does not
    persist the project: whatever names are given and whatever the working
    directory, the command ends as the install does on the project exactly
    as it was loaded. *)
Theorem focus_all_plain_install parseIdent accepts install_routine fuel this workspace s :
  all this = true → production this = false →
  length (workspaces (project s)) + size (workspacesByIdent (project s)) < fuel →
  execute parseIdent accepts install_routine fuel this workspace s =
  run_install install_routine s.
Proof.
  intros Hall Hprod Hfuel. rewrite execute_run.
  assert (select_required parseIdent this workspace s =
            (Return (Set_new (workspaces (project s))), s)) as ->.
  { unfold select_required. by rewrite Hall. }
  pose proof (Set_new_length (workspaces (project s))) as Hlen.
  destruct (closure_loop_returns accepts s (Set_new (workspaces (project s))) fuel)
    as [req Hrun]; [lia |].
  rewrite Hrun, run_install_run. f_equal.
  pose proof (eviction_all_required_identity_aux this req s Hprod) as Hid.
  apply Hid. intros w Hw. eapply closure_loop_seed_in; [exact Hrun |].
  by apply Set_new_elem.
Qed.

Lemma focus_all_plain_install_witness :
  let this := {| cmd_workspaces := ["zzz"]; json := true; production := false;
                 all := true; context_cwd := "/elsewhere" |} in
  all this = true ∧ production this = false ∧
  length (workspaces (project demo_state)) +
    size (workspacesByIdent (project demo_state)) < 9 ∧
  execute demo_parseIdent demo_accepts demo_install 9 this None demo_state =
  run_install demo_install demo_state.
Proof.
  assert (length (workspaces (project demo_state)) +
          size (workspacesByIdent (project demo_state)) < 9) as H
    by (vm_compute; lia).
  split; [reflexivity |]. split; [reflexivity |]. split; [exact H |].
  exact (focus_all_plain_install demo_parseIdent demo_accepts demo_install 9
           {| cmd_workspaces := ["zzz"]; json := true; production := false;
              all := true; context_cwd := "/elsewhere" |}
           None demo_state eq_refl eq_refl H).
Defined.

(** X17.  In production mode no workspace of the ordered list keeps a
    development dependency after the eviction, required or not. *)
Theorem production_clears_all_dev this req s w :
  production this = true → w ∈ workspaces (project s) →
  devDependencies (scopes_of (evict this req s).2 w) = [].
Proof.
  intros Hprod Hw. rewrite evict_run. cbn [snd]. unfold scopes_of.
  rewrite evicted_deref, decide_True by done.
  unfold prune. rewrite Hprod. by destruct (Set_has req w).
Qed.

Lemma production_clears_all_dev_witness :
  production (demo_focus ["A"] true) = true ∧
  demo_B ∈ workspaces (project demo_state) ∧
  devDependencies
    (scopes_of (evict (demo_focus ["A"] true) [demo_A; demo_B] demo_state).2 demo_B) = [].
Proof.
  assert (demo_B ∈ workspaces (project demo_state)) as H
    by (apply (bool_decide_unpack _); vm_compute; exact I).
  split; [reflexivity |]. split; [exact H |].
  exact (production_clears_all_dev (demo_focus ["A"] true) [demo_A; demo_B]
           demo_state demo_B eq_refl H).
Defined.

(** X18.  Resolution in the pruned project is a restriction of resolution
    in the loaded one: in a consistent project, a descriptor that resolves
    to a workspace after the eviction resolved to the same workspace
    before it, and that workspace is in the pruned list; so no descriptor,
    of whatever scope, resolves to an evicted workspace any more. *)
Theorem resolution_restricted accepts this req s d w :
  project_consistent s →
  resolve accepts (evict this req s).2 d = Some w →
  resolve accepts s d = Some w ∧
  w ∈ workspaces (project (evict this req s).2) ∧
  (w ∈ req ∨ w = topLevelWorkspace (project s)).
Proof.
  intros Hcons. rewrite evict_run. cbn [snd]. intros Hres.
  assert (in_byIdent (evicted_state this req s) w) as Hidx
    by (by eapply resolve_indexed).
  apply (consistent_in_byIdent _ _ (evicted_consistent this req s Hcons)) in Hidx.
  unfold in_list in Hidx. split_and!; [| done | by apply evicted_in_list in Hidx as [_ ?]].
  unfold resolve in *.
  destruct (workspacesByIdent (project (evicted_state this req s))
              !! descriptor_identHash d) as [v|] eqn:Hk; [|done].
  apply evicted_byIdent in Hk as [Hk _]. by rewrite Hk.
Qed.

Lemma resolution_restricted_witness :
  project_consistent demo_state ∧
  resolve demo_accepts (evict (demo_focus ["A"] false) [demo_A; demo_B] demo_state).2
    (dependency "B" "workspace:*").2 = Some demo_B ∧
  resolve demo_accepts demo_state (dependency "B" "workspace:*").2 = Some demo_B ∧
  demo_B ∈ workspaces (project (evict (demo_focus ["A"] false) [demo_A; demo_B] demo_state).2) ∧
  (demo_B ∈ [demo_A; demo_B] ∨ demo_B = topLevelWorkspace (project demo_state)).
Proof.
  assert (project_consistent demo_state) as H1
    by (apply (bool_decide_unpack _); vm_compute; exact I).
  assert (resolve demo_accepts
            (evict (demo_focus ["A"] false) [demo_A; demo_B] demo_state).2
            (dependency "B" "workspace:*").2 = Some demo_B) as H2
    by (vm_compute; reflexivity).
  split; [exact H1 |]. split; [exact H2 |].
  exact (resolution_restricted demo_accepts (demo_focus ["A"] false) [demo_A; demo_B]
           demo_state (dependency "B" "workspace:*").2 demo_B H1 H2).
Defined.

(** The peer dependency of [A] on [C] resolves in the loaded project and no
    longer does once [C] is evicted. *)
Example demo_peer_unresolved :
  resolve demo_accepts demo_state (dependency "C" "*").2 = Some demo_C ∧
  resolve demo_accepts (evict (demo_focus ["A"] false) [demo_A; demo_B] demo_state).2
    (dependency "C" "*").2 = None.
Proof. split; vm_compute; reflexivity. Qed.
